(** * Express-Jobly: authorization gates, partial-update builder, job filter

    A shallow embedding of
    - [helpers/sql.js]      ([sqlForPartialUpdate]),
    - [middleware/auth.js]  ([authenticateJWT], [ensureLoggedIn],
                             [ensureAdmin], [ensureAdminOrUser]),
    - [models/job.js]       ([Job.filterJobs]),
    together with the properties the specification states about them.

    JavaScript values are a small inductive type, a [throw] is the [Throw]
    branch of a result type, [try { .. } catch (err) { .. }] is a match on
    that result, and [res.locals] is an explicit finite map that the
    middleware receives and returns. *)

From Stdlib Require Import ZArith QArith_base Ascii String List.
From stdpp Require Import gmap strings list pretty.

Close Scope Q_scope.
Open Scope string_scope.
Local Set Warnings "-register-all".

(** ** JavaScript values and exceptions *)

(** Numbers are modelled by integers: the numbers these functions meet are
    array indices, salaries and claim fields. Objects carry their own
    properties in [Object.keys] order. A built-in function is known by its
    name. *)
Inductive value : Type :=
| VUndefined
| VNull
| VBool (b : bool)
| VNum (n : Z)
| VStr (s : string)
| VObj (props : list (string * value))
| VFunction (name : string).

(** The error classes that can reach [next(err)] or a caller.
    [TypeError] records the property whose read failed. *)
Inductive error : Type :=
| BadRequestError (message : string)
| NotFoundError (message : string)
| UnauthorizedError
| TypeError (property : string)
| JsonWebTokenError (message : string).

(** A computation either returns or throws. *)
Inductive result (A : Type) : Type :=
| Ok (a : A)
| Throw (e : error).
Arguments Ok {A} a.
Arguments Throw {A} e.

Definition bind {A B} (c : result A) (k : A -> result B) : result B :=
  match c with
  | Ok a => k a
  | Throw e => Throw e
  end.

Notation "'let*' x ':=' c 'in' k" := (bind c (fun x => k))
  (at level 10, x name, c at level 100, k at level 200).

(** ToBoolean. *)
Definition truthy (v : value) : bool :=
  match v with
  | VUndefined | VNull => false
  | VBool b => b
  | VNum n => negb (n =? 0)%Z
  | VStr s => negb (String.eqb s EmptyString)
  | VObj _ => true
  | VFunction _ => true
  end.

(** [a || b]. *)
Definition js_or (a b : value) : value := if truthy a then a else b.

(** ToString, as performed by a template literal; an object stands for a
    plain one, without a [toString] of its own. *)
Definition toString (v : value) : string :=
  match v with
  | VUndefined => "undefined"
  | VNull => "null"
  | VBool true => "true"
  | VBool false => "false"
  | VNum n => pretty n
  | VStr s => s
  | VObj _ => "[object Object]"
  | VFunction name => "function " ++ name ++ "() { [native code] }"
  end.


(** What every plain object inherits from [Object.prototype]: its
    methods, the [constructor] (the function [Object]) and, through the
    [__proto__] accessor, the prototype object itself. *)
Definition Object_prototype (k : string) : value :=
  if bool_decide (k ∈ ["hasOwnProperty"; "isPrototypeOf";
                       "propertyIsEnumerable"; "toLocaleString"; "toString";
                       "valueOf"; "__defineGetter__"; "__defineSetter__";
                       "__lookupGetter__"; "__lookupSetter__"])
  then VFunction k
  else if String.eqb k "constructor" then VFunction "Object"
  else if String.eqb k "__proto__" then VObj []
  else VUndefined.

(** Reading [o[k]] on an object whose own entries are strings: the own
    entry when there is one, what the object inherits otherwise. *)
Definition read (o : gmap string string) (k : string) : value :=
  match o !! k with
  | Some s => VStr s
  | None => Object_prototype k
  end.

(** Own property of an object value, first binding of the name. *)
Fixpoint own (props : list (string * value)) (k : string) : value :=
  match props with
  | [] => VUndefined
  | (k', v) :: rest => if String.eqb k' k then v else own rest k
  end.

(** [v.k]: reading a property of [undefined] or [null] throws a TypeError;
    a primitive has no property of the names read here ([isAdmin],
    [username]). *)
Definition getProp (v : value) (k : string) : result value :=
  match v with
  | VUndefined | VNull => Throw (TypeError k)
  | VObj props => Ok (own props k)
  | _ => Ok VUndefined
  end.

(** [a === b] where one operand is a primitive; objects are compared by
    reference and are never equal to a primitive. *)
Definition strict_eq (a b : value) : bool :=
  match a, b with
  | VUndefined, VUndefined => true
  | VNull, VNull => true
  | VBool x, VBool y => Bool.eqb x y
  | VNum x, VNum y => (x =? y)%Z
  | VStr x, VStr y => String.eqb x y
  | _, _ => false
  end.

(** ** Strings *)

Definition dquote : string := String "034"%char EmptyString.

(** [Array.prototype.join]. *)
Fixpoint join (sep : string) (l : list string) : string :=
  match l with
  | [] => EmptyString
  | x :: rest =>
      match rest with
      | [] => x
      | _ :: _ => x ++ sep ++ join sep rest
      end
  end.

(** ** helpers/sql.js *)

Module Sql.

Record update : Type := { setCols : string; values : list value }.

(** [Object.keys] and [Object.values] of an object given by its properties
    in enumeration order. *)
Definition Object_keys (o : list (string * value)) : list string := map fst o.
Definition Object_values (o : list (string * value)) : list value := map snd o.

Definition sqlForPartialUpdate
    (dataToUpdate : list (string * value)) (jsToSql : gmap string string)
    : result update :=
  let keys := Object_keys dataToUpdate in
  if (length keys =? 0)%nat then Throw (BadRequestError "No data") else
  let cols :=
    imap (fun idx colName =>
            dquote ++ toString (js_or (read jsToSql colName) (VStr colName))
                   ++ dquote ++ "=$" ++ pretty (idx + 1)%nat)
         keys in
  Ok {| setCols := join ", " cols; values := Object_values dataToUpdate |}.

(** The column a field is bound to, as the specification words it: the
    entry of the column map, the field name itself when there is none. *)
Definition column_of_spec (jsToSql : gmap string string) (field : string) : string :=
  default field (jsToSql !! field).

(** The column a field is bound to: the entry of the column map when there
    is one and it is not the empty string; without an entry, the text of
    what the map inherits under that name, when it inherits something; the
    field name otherwise. *)
Definition column (jsToSql : gmap string string) (field : string) : string :=
  match jsToSql !! field with
  | Some c => if decide (c = EmptyString) then field else c
  | None =>
      if truthy (Object_prototype field)
      then toString (Object_prototype field)
      else field
  end.

Definition fragment (col : string) (i : nat) : string :=
  dquote ++ col ++ dquote ++ "=$" ++ pretty i.

End Sql.

(** ** middleware/auth.js *)

Module Auth.

(** [req.headers] may be missing altogether (the unit tests pass [{}]);
    [req.params] holds the parameters of the matched path. *)
Record request : Type := {
  headers : option (gmap string string);
  params : gmap string string
}.

(** [res.locals], the request-scoped store the middleware writes to. *)
Record response : Type := { locals : gmap string value }.

(** What a middleware hands to Express: [next()] or [next(err)]. *)
Inductive outcome : Type :=
| Next
| NextErr (err : error).

(** [res.locals.user] *)
Definition user (res : response) : value :=
  default VUndefined (locals res !! "user").

(** [res.locals.user = v] *)
Definition set_user (res : response) (v : value) : response :=
  {| locals := <["user" := v]> (locals res) |}.

(** [req.headers && req.headers.authorization] *)
Definition authorization (req : request) : value :=
  match headers req with
  | None => VUndefined
  | Some h => read h "authorization"
  end.

(** WhiteSpace and LineTerminator characters of a header value (Node
    decodes header bytes as Latin-1, one character per byte). *)
Definition is_space (c : ascii) : bool :=
  match N_of_ascii c with
  | 9%N | 10%N | 11%N | 12%N | 13%N | 32%N | 160%N => true
  | _ => false
  end.

Fixpoint trimStart (s : string) : string :=
  match s with
  | EmptyString => EmptyString
  | String c rest => if is_space c then trimStart rest else s
  end.

Fixpoint trimEnd (s : string) : string :=
  match s with
  | EmptyString => EmptyString
  | String c rest =>
      match trimEnd rest with
      | EmptyString => if is_space c then EmptyString else String c EmptyString
      | String _ _ as t => String c t
      end
  end.

(** [String.prototype.trim] *)
Definition trim (s : string) : string := trimEnd (trimStart s).

(** [s] without the prefix [p], when it starts with it. *)
Fixpoint after_prefix (p s : string) : option string :=
  match p, s with
  | EmptyString, _ => Some s
  | String a p', String b s' =>
      if Ascii.eqb a b then after_prefix p' s' else None
  | String _ _, EmptyString => None
  end.

(** [s.replace(/^[Bb]earer /, '')]: the prefix is removed when the string
    starts with one of the two spellings. *)
Definition strip_bearer (s : string) : string :=
  match after_prefix "Bearer " s with
  | Some rest => rest
  | None =>
      match after_prefix "bearer " s with
      | Some rest => rest
      | None => s
      end
  end.

Section Authenticate.

(** [jwt.verify] of the jsonwebtoken package and the [SECRET_KEY] of
    [config.js]: the decoded payload, or a thrown verification error. *)
Variable jwt_verify : string -> string -> result value.
Variable SECRET_KEY : string.

Definition authenticateJWT (req : request) (res : response)
    : response * outcome :=
  let body : result response :=
    let authHeader := authorization req in
    if truthy authHeader then
      let token := trim (strip_bearer (toString authHeader)) in
      let* payload := jwt_verify token SECRET_KEY in
      Ok (set_user res payload)
    else Ok res in
  match body with
  | Ok res' => (res', Next)
  | Throw err => (res, Next)
  end.

End Authenticate.

(** No character of the string is white space, as in the compact
    serialization of a token (base64url segments joined by dots). *)
Fixpoint spaceless (s : string) : bool :=
  match s with
  | EmptyString => true
  | String c rest => negb (is_space c) && spaceless rest
  end.

(** A verifier that accepts exactly one token under one secret and
    decodes it to [claim]; every other input is rejected. *)
Definition verify_only (token0 secret0 : string) (claim : value)
    (token secret : string) : result value :=
  if String.eqb token token0 && String.eqb secret secret0
  then Ok claim
  else Throw (JsonWebTokenError "invalid token").

(** [try { body; return next(); } catch (err) { return next(err); }] *)
Definition try_next (body : result unit) : outcome :=
  match body with
  | Ok _ => Next
  | Throw err => NextErr err
  end.

Definition ensureLoggedIn (req : request) (res : response) : outcome :=
  try_next
    (if negb (truthy (user res)) then Throw UnauthorizedError else Ok tt).

Definition ensureAdmin (req : request) (res : response) : outcome :=
  try_next
    (let* isAdmin := getProp (user res) "isAdmin" in
     if negb (truthy isAdmin) then Throw UnauthorizedError else Ok tt).

Definition ensureAdminOrUser (req : request) (res : response) : outcome :=
  try_next
    (let owner := read (params req) "username" in
     let userObj := user res in
     let* isAdmin := getProp userObj "isAdmin" in
     if negb (truthy isAdmin) then
       let* username := getProp userObj "username" in
       if negb (strict_eq owner username)
       then Throw UnauthorizedError else Ok tt
     else Ok tt).

(** A route's chain of middleware, as Express runs it: each one in turn,
    the first [next(err)] skips the rest and the handler. [Next] at the end
    means the handler is reached. *)
Definition middleware : Type := request -> response -> outcome.

Fixpoint run_chain (chain : list middleware) (req : request) (res : response)
    : outcome :=
  match chain with
  | [] => Next
  | m :: rest =>
      match m req res with
      | Next => run_chain rest req res
      | NextErr err => NextErr err
      end
  end.

(** The three gates exported by the module. *)
Inductive gate : Type := LoggedIn | Admin | AdminOrUser.

Definition gate_fn (g : gate) : middleware :=
  match g with
  | LoggedIn => ensureLoggedIn
  | Admin => ensureAdmin
  | AdminOrUser => ensureAdminOrUser
  end.

(** The value is [undefined] or [null]: nothing can be read from it. *)
Definition nullish (v : value) : bool :=
  match v with
  | VUndefined | VNull => true
  | _ => false
  end.

(** [v.k] when the read cannot throw, [undefined] otherwise. *)
Definition field (v : value) (k : string) : value :=
  match getProp v k with
  | Ok x => x
  | Throw _ => VUndefined
  end.

(** Every character of the string is white space. *)
Fixpoint blank (s : string) : bool :=
  match s with
  | EmptyString => true
  | String c rest => is_space c && blank rest
  end.

(** The payload the unit tests sign, [{ username: "test", isAdmin: false }]
    with an issue time, and a request that carries one Authorization
    header. *)
Definition test_payload : value :=
  VObj [("username", VStr "test"); ("isAdmin", VBool false);
        ("iat", VNum 1700000000)].

Definition with_authorization (h : string) : request :=
  {| headers := Some {[ "authorization" := h ]}; params := ∅ |}.

End Auth.

(** ** models/job.js *)

Module Job.

(** The driver hands a NUMERIC column over as text: a decimal numeral,
    [NaN] or an infinity. *)
Inductive numeric : Type :=
| Decimal (q : Q)
| NaN
| Infinity (negative : bool).

(** A row of the [jobs] table as [Job.findAll] returns it. [salary] and
    [equity] are nullable. *)
Record job : Type := {
  id : Z;
  title : string;
  salary : option Z;
  equity : option numeric;
  companyHandle : string
}.

(** The options of [filterJobs] after the route's coercion and schema
    validation: each one is absent or has its type. *)
Module Options.
Record t : Type := {
  title : option string;
  minSalary : option Z;
  hasEquity : option bool
}.
End Options.

(** Lower-casing of ASCII text, to run the model on: it folds [A-Z] and
    leaves every other character alone. *)
Definition lower (c : ascii) : ascii :=
  let n := N_of_ascii c in
  if ((65 <=? n) && (n <=? 90))%N then ascii_of_N (n + 32) else c.

Fixpoint toLowerCase_ascii (s : string) : string :=
  match s with
  | EmptyString => EmptyString
  | String c rest => String (lower c) (toLowerCase_ascii rest)
  end.

(** [s.includes(search)] *)
Fixpoint includes (s search : string) : bool :=
  if String.prefix search s then true
  else
    match s with
    | EmptyString => false
    | String _ rest => includes rest search
    end.

(** [job.salary >= minSalary]: a null salary compares as 0. *)
Definition salary_ge (j : job) (minSalary : Z) : bool :=
  (minSalary <=? default 0 (salary j))%Z.

(** Half of the smallest number above zero, 2^-1075. *)
Definition half_min_value : Q := Qmake 1 (Pos.pow 2 1075).

(** [Number(job.equity) > 0]. [Number] rounds a decimal numeral to the
    nearest number, ties to even, so the result is above zero exactly when
    the decimal is above 2^-1075; [null] converts to 0 and NaN compares
    false. *)
Definition equity_positive (j : job) : bool :=
  match equity j with
  | Some (Decimal q) =>
      (Z.pos (Qden q) <? Qnum q * Z.pos (Qden half_min_value))%Z
  | Some (Infinity negative) => negb negative
  | Some NaN => false
  | None => false
  end.

(** The number [Number(equity)] is above zero. *)
Definition numeric_positive (e : option numeric) : Prop :=
  match e with
  | Some (Decimal q) => Qlt half_min_value q
  | Some (Infinity negative) => negative = false
  | Some NaN => False
  | None => False
  end.

Section Filter.

(** [String.prototype.toLowerCase], a built-in of the language. *)
Variable toLowerCase : string -> string.

(** [filterJobs], with the rows of [Job.findAll()] as [data]. *)
Definition filterJobs (data : list job) (options : Options.t)
    : result (list job) :=
  let filter1 :=
    match Options.title options with
    | Some title =>
        if truthy (VStr title) then
          List.filter
            (fun job => includes (toLowerCase (Job.title job))
                                 (toLowerCase title))
            data
        else data
    | None => data
    end in
  let filter2 :=
    match Options.minSalary options with
    | Some minSalary =>
        if truthy (VNum minSalary) then
          List.filter (fun job => salary_ge job minSalary) filter1
        else filter1
    | None => filter1
    end in
  let results :=
    match Options.hasEquity options with
    | Some hasEquity =>
        if truthy (VBool hasEquity) then
          List.filter (fun job => equity_positive job) filter2
        else filter2
    | None => filter2
    end in
  if (length results =? 0)%nat
  then Throw (NotFoundError "No jobs match the desired criteria")
  else Ok results.

(** The option string occurs in the title, letter case aside. *)
Definition ci_substring (needle hay : string) : Prop :=
  exists pre post : string,
    toLowerCase hay = pre ++ toLowerCase needle ++ post.

(** A record passes the predicates of the options, as the specification
    words them: every option that is supplied narrows. *)
Definition passes_supplied (o : Options.t) (j : job) : Prop :=
  (forall t, Options.title o = Some t -> ci_substring t (title j)) /\
  (forall m, Options.minSalary o = Some m -> (m <= default 0 (salary j))%Z) /\
  (Options.hasEquity o = Some true -> numeric_positive (equity j)).

(** A record passes the predicates of the options: a bound of 0 and an
    empty title narrow no more than an absent one. *)
Definition passes (o : Options.t) (j : job) : Prop :=
  (forall t, Options.title o = Some t -> t <> EmptyString ->
             ci_substring t (title j)) /\
  (forall m, Options.minSalary o = Some m -> m <> 0%Z ->
             (m <= default 0 (salary j))%Z) /\
  (Options.hasEquity o = Some true -> numeric_positive (equity j)).

(** The same test as a boolean. *)
Definition passesb (o : Options.t) (j : job) : bool :=
  match Options.title o with
  | Some t => String.eqb t EmptyString
              || includes (toLowerCase (title j)) (toLowerCase t)
  | None => true
  end
  && match Options.minSalary o with
     | Some m => (m =? 0)%Z || salary_ge j m
     | None => true
     end
  && match Options.hasEquity o with
     | Some true => equity_positive j
     | _ => true
     end.

End Filter.

(** The rows the [jobs] table holds: a salary is null or not negative
    (the route documents [minSalary] as a bound from 0 upward; the
    declaration of the table is not part of the sources). *)
Definition job_records (data : list job) : Prop :=
  Forall (fun j => (0 <= default 0 (salary j))%Z) data.

(** The error [filterJobs] throws. *)
Definition not_found : error :=
  NotFoundError "No jobs match the desired criteria".

(** The options that hold one option of [o] and nothing else. *)
Definition only_title (o : Options.t) : Options.t :=
  {| Options.title := Options.title o; Options.minSalary := None;
     Options.hasEquity := None |}.
Definition only_minSalary (o : Options.t) : Options.t :=
  {| Options.title := None; Options.minSalary := Options.minSalary o;
     Options.hasEquity := None |}.
Definition only_hasEquity (o : Options.t) : Options.t :=
  {| Options.title := None; Options.minSalary := None;
     Options.hasEquity := Options.hasEquity o |}.

(** The three jobs of the test database, in [findAll] order, and a job
    whose salary is below zero. *)
Definition j1 : job :=
  {| id := 1; title := "j1"; salary := Some 50000%Z;
     equity := Some (Decimal (Qmake 1 2)); companyHandle := "c1" |}.
Definition j2 : job :=
  {| id := 2; title := "j2"; salary := Some 100000%Z;
     equity := Some (Decimal (Qmake 9 10)); companyHandle := "c2" |}.
Definition j3 : job :=
  {| id := 3; title := "j3"; salary := Some 150000%Z;
     equity := Some (Decimal (Qmake 0 1)); companyHandle := "c3" |}.
Definition j_debt : job :=
  {| id := 4; title := "j4"; salary := Some (-1)%Z;
     equity := None; companyHandle := "c1" |}.

End Job.

(** ** db.js and the queries of models/job.js *)

Module Db.

(** One [db.query(sql, args)]. *)
Record call : Type := { sql : string; args : list value }.

(** What the driver answers: the rows of the result, or a rejection. *)
Inductive answer : Type :=
| Rows (rows : list value)
| Refused (reason : string).

(** The database as a model function sees it: its answer to a call, given
    the calls already made on it. *)
Definition database : Type := list call -> call -> answer.

(** How the promise of an async function settles: fulfilled, rejected
    with an error thrown by the function, or rejected by the driver. *)
Inductive settled (A : Type) : Type :=
| Fulfilled (a : A)
| Threw (e : error)
| DriverError (reason : string).
Arguments Fulfilled {A} a.
Arguments Threw {A} e.
Arguments DriverError {A} reason.

(** An async function over the database: it settles and leaves the log of
    the calls made so far, oldest first. *)
Definition t (A : Type) : Type := database -> list call -> settled A * list call.

Definition ret {A} (a : A) : t A := fun _ log => (Fulfilled a, log).

Definition throw {A} (e : error) : t A := fun _ log => (Threw e, log).

Definition lift {A} (r : result A) : t A :=
  match r with
  | Ok a => ret a
  | Throw e => throw e
  end.

Definition bind {A B} (m : t A) (k : A -> t B) : t B :=
  fun db log =>
    match m db log with
    | (Fulfilled a, log') => k a db log'
    | (Threw e, log') => (Threw e, log')
    | (DriverError reason, log') => (DriverError reason, log')
    end.

(** [await db.query(sql, args)], giving [result.rows]. *)
Definition query (sql : string) (args : list value) : t (list value) :=
  fun db log =>
    let c := {| sql := sql; args := args |} in
    match db log c with
    | Rows rows => (Fulfilled rows, (log ++ [c])%list)
    | Refused reason => (DriverError reason, (log ++ [c])%list)
    end.

(** [rows[0]] *)
Definition first (rows : list value) : value := default VUndefined (head rows).

End Db.

Notation "'await' x ':=' c 'in' k" := (Db.bind c (fun x => k))
  (at level 10, x name, c at level 100, k at level 200).

Module JobQueries.

Definition nl : string := String "010"%char EmptyString.

Definition company_check_sql : string :=
  "SELECT handle" ++ nl ++
  "                FROM companies" ++ nl ++
  "                WHERE handle = $1".

Definition insert_sql : string :=
  "INSERT INTO jobs" ++ nl ++
  "               (title, salary, equity, company_handle)" ++ nl ++
  "               VALUES ($1, $2, $3, $4)" ++ nl ++
  "               RETURNING id, title, salary, equity, company_handle AS "
  ++ dquote ++ "companyHandle" ++ dquote.

Definition findAll_sql : string :=
  "SELECT id," ++ nl ++
  "                    title," ++ nl ++
  "                    salary," ++ nl ++
  "                    equity," ++ nl ++
  "                    company_handle AS " ++ dquote ++ "companyHandle"
  ++ dquote ++ nl ++
  "            FROM jobs" ++ nl ++
  "            ORDER BY title".

Definition get_sql : string :=
  "SELECT id," ++ nl ++
  "                    title," ++ nl ++
  "                    salary," ++ nl ++
  "                    equity," ++ nl ++
  "                    company_handle AS " ++ dquote ++ "companyHandle"
  ++ dquote ++ nl ++
  "            FROM jobs" ++ nl ++
  "            WHERE id = $1".

Definition update_sql (setCols handleVarIdx : string) : string :=
  "UPDATE jobs" ++ nl ++
  "                          SET " ++ setCols ++ nl ++
  "                          WHERE id = " ++ handleVarIdx ++ nl ++
  "                          RETURNING id," ++ nl ++
  "                                    title," ++ nl ++
  "                                    salary," ++ nl ++
  "                                    equity," ++ nl ++
  "                                    company_handle AS "
  ++ dquote ++ "companyHandle" ++ dquote.

Definition remove_sql : string :=
  "DELETE" ++ nl ++
  "            FROM jobs" ++ nl ++
  "            WHERE id = $1" ++ nl ++
  "            RETURNING title".

(** [Job.create({ title, salary, equity, companyHandle })] *)
Definition create (data : value) : Db.t value :=
  await title := Db.lift (getProp data "title") in
  await salary := Db.lift (getProp data "salary") in
  await equity := Db.lift (getProp data "equity") in
  await companyHandle := Db.lift (getProp data "companyHandle") in
  await companyCheck := Db.query company_check_sql [companyHandle] in
  if negb (truthy (Db.first companyCheck))
  then Db.throw (BadRequestError
                   ("Company not found: " ++ toString companyHandle))
  else
    await result :=
      Db.query insert_sql
        [title; salary; VStr (toString equity); companyHandle] in
    let job := Db.first result in
    Db.ret job.

(** [Job.findAll()] *)
Definition findAll : Db.t (list value) :=
  await result := Db.query findAll_sql [] in
  Db.ret result.

(** [Job.get(id)] *)
Definition get (id : value) : Db.t value :=
  await jobRes := Db.query get_sql [id] in
  let job := Db.first jobRes in
  if negb (truthy job) then Db.throw (NotFoundError "No job")
  else Db.ret job.

(** [Job.update(id, data)] *)
Definition update (id : value) (data : list (string * value)) : Db.t value :=
  await u := Db.lift (Sql.sqlForPartialUpdate data
                        {[ "companyHandle" := "company_handle" ]}) in
  let handleVarIdx := "$" ++ pretty (length (Sql.values u) + 1)%nat in
  let querySql := update_sql (Sql.setCols u) handleVarIdx in
  await result := Db.query querySql (Sql.values u ++ [id])%list in
  let job := Db.first result in
  if negb (truthy job) then Db.throw (NotFoundError "No job")
  else Db.ret job.

(** [Job.remove(id)] *)
Definition remove (id : value) : Db.t value :=
  await result := Db.query remove_sql [id] in
  let job := Db.first result in
  if negb (truthy job) then Db.throw (NotFoundError "No job")
  else Db.ret (VObj [("msg", VStr "job deleted")]).

(** The column [Job.update] writes a field to: [company_handle] for
    [companyHandle]; the text of the inherited property for a field named
    like one ([toString], [constructor], ...); the field name otherwise. *)
Definition update_column (field : string) : string :=
  if String.eqb field "companyHandle" then "company_handle"
  else if truthy (Object_prototype field)
       then toString (Object_prototype field)
       else field.

(** The call [Job.update] makes for a non-empty [data]: one fragment per
    field, the values followed by the id. *)
Definition update_call (id : value) (data : list (string * value)) : Db.call :=
  {| Db.sql :=
       update_sql
         (join ", " (imap (fun i k => Sql.fragment (update_column k) (S i))
                          (Sql.Object_keys data)))
         ("$" ++ pretty (S (length data)));
     Db.args := (Sql.Object_values data ++ [id])%list |}.

(** The two calls of [Job.create]. *)
Definition check_call (data : value) : Db.call :=
  {| Db.sql := company_check_sql;
     Db.args := [Auth.field data "companyHandle"] |}.

Definition insert_call (data : value) : Db.call :=
  {| Db.sql := insert_sql;
     Db.args := [Auth.field data "title"; Auth.field data "salary";
                 VStr (toString (Auth.field data "equity"));
                 Auth.field data "companyHandle"] |}.

(** The calls a function made, given the log it started from. *)
Definition issued {A} (m : Db.t A) (db : Db.database) (log : list Db.call)
    : list Db.call :=
  drop (length log) (snd (m db log)).

End JobQueries.

(** * Properties *)

(** ** The partial-update builder *)

Section SqlFacts.
Import Sql.

Implicit Types (dataToUpdate : list (string * value))
               (jsToSql : gmap string string).

Lemma column_interpolated jsToSql colName :
  toString (js_or (read jsToSql colName) (VStr colName))
  = column jsToSql colName.
Proof.
  unfold read, column, js_or.
  destruct (jsToSql !! colName) as [c|]; simpl.
  - destruct (decide (c = EmptyString)) as [->|Hc]; [reflexivity|].
    apply String.eqb_neq in Hc. rewrite Hc. reflexivity.
  - destruct (truthy (Object_prototype colName)); reflexivity.
Qed.

Lemma sqlForPartialUpdate_nonempty dataToUpdate jsToSql :
  dataToUpdate <> [] ->
  sqlForPartialUpdate dataToUpdate jsToSql
  = Ok {| setCols :=
            join ", " (imap (fun i k => fragment (column jsToSql k) (S i))
                            (Object_keys dataToUpdate));
          values := Object_values dataToUpdate |}.
Proof.
  intros Hne. unfold sqlForPartialUpdate.
  destruct dataToUpdate as [|kv rest]; [congruence|].
  cbn [Object_keys map length Nat.eqb]. do 2 f_equal.
  f_equal. apply imap_ext. intros i k _.
  rewrite column_interpolated, Nat.add_1_r. reflexivity.
Qed.

Lemma Object_keys_lookup dataToUpdate i k v :
  dataToUpdate !! i = Some (k, v) -> Object_keys dataToUpdate !! i = Some k.
Proof.
  intros H. unfold Object_keys.
  change (map fst dataToUpdate) with (fst <$> dataToUpdate).
  rewrite list_lookup_fmap, H. reflexivity.
Qed.

Lemma Object_values_lookup dataToUpdate i k v :
  dataToUpdate !! i = Some (k, v) -> Object_values dataToUpdate !! i = Some v.
Proof.
  intros H. unfold Object_values.
  change (map snd dataToUpdate) with (snd <$> dataToUpdate).
  rewrite list_lookup_fmap, H. reflexivity.
Qed.

End SqlFacts.

Import Sql.

(** What [sqlForPartialUpdate] returns on every input: an empty
    [dataToUpdate] is refused; otherwise one fragment per field, in the
    order of the fields, the [i]-th (from 0) binding the field's column to
    [$(i+1)], and the fields' values in the same order. *)
Lemma sqlForPartialUpdate_fragments
    (dataToUpdate : list (string * value)) (jsToSql : gmap string string) :
  (dataToUpdate = [] ->
   sqlForPartialUpdate dataToUpdate jsToSql = Throw (BadRequestError "No data"))
  /\
  (dataToUpdate <> [] ->
   exists cols vals,
     sqlForPartialUpdate dataToUpdate jsToSql
     = Ok {| setCols := join ", " cols; values := vals |}
     /\ length cols = length dataToUpdate
     /\ length vals = length dataToUpdate
     /\ forall i k v,
          dataToUpdate !! i = Some (k, v) ->
          cols !! i = Some (fragment (column jsToSql k) (S i))
          /\ vals !! i = Some v).
Proof.
  split.
  - intros ->. reflexivity.
  - intros Hne.
    exists (imap (fun i k => fragment (column jsToSql k) (S i))
                 (Object_keys dataToUpdate)), (Object_values dataToUpdate).
    split; [apply sqlForPartialUpdate_nonempty, Hne|].
    unfold Object_keys, Object_values.
    rewrite length_imap, !length_map. repeat split.
    + rewrite list_lookup_imap.
      erewrite Object_keys_lookup by eassumption. reflexivity.
    + eapply Object_values_lookup; eassumption.
Qed.

(** The column is the one the specification describes whenever the field
    is not named like an inherited property and its entry, if any, is not
    the empty string. *)
Lemma column_as_specified (jsToSql : gmap string string) (field : string) :
  truthy (Object_prototype field) = false ->
  jsToSql !! field <> Some EmptyString ->
  column jsToSql field = column_of_spec jsToSql field.
Proof.
  intros Hown Hentry. unfold column, column_of_spec.
  destruct (jsToSql !! field) as [c|]; simpl.
  - destruct (decide (c = EmptyString)) as [->|]; congruence.
  - rewrite Hown. reflexivity.
Qed.

(** The unit test of [sqlForPartialUpdate] and the example of the
    specification. *)
Example sqlForPartialUpdate_works :
  sqlForPartialUpdate [("firstName", VStr "Aliya"); ("age", VNum 8)]
                      {[ "firstName" := "first_name"; "age" := "age" ]}
  = Ok {| setCols := dquote ++ "first_name" ++ dquote ++ "=$1, "
                     ++ dquote ++ "age" ++ dquote ++ "=$2";
          values := [VStr "Aliya"; VNum 8] |}
  /\ sqlForPartialUpdate [("firstName", VStr "Aliya"); ("age", VNum 8)]
                         {[ "firstName" := "first_name" ]}
     = Ok {| setCols := dquote ++ "first_name" ++ dquote ++ "=$1, "
                        ++ dquote ++ "age" ++ dquote ++ "=$2";
             values := [VStr "Aliya"; VNum 8] |}
  /\ sqlForPartialUpdate [] {[ "firstName" := "first_name"; "age" := "age" ]}
     = Throw (BadRequestError "No data").
Proof. repeat split; vm_compute; reflexivity. Qed.

(** C1: on a field named like a property that every object inherits the
    code departs from the specification, and from its own comment. The
    column map has no entry for [constructor] (or [toString]), so the
    specification and the comment at the lookup have the fragment keep the
    field name; but [jsToSql[colName]] finds the inherited function, which
    is truthy, and the fragment carries the text of that function. *)
Theorem sqlForPartialUpdate_inherited_name :
  (∅ : gmap string string) !! "constructor" = None
  /\ column_of_spec ∅ "constructor" = "constructor"
  /\ sqlForPartialUpdate [("constructor", VNum 1)] ∅
     = Ok {| setCols := dquote ++ "function Object() { [native code] }"
                        ++ dquote ++ "=$1";
             values := [VNum 1] |}
  /\ sqlForPartialUpdate [("toString", VNum 1)]
                         {[ "companyHandle" := "company_handle" ]}
     = Ok {| setCols := dquote ++ "function toString() { [native code] }"
                        ++ dquote ++ "=$1";
             values := [VNum 1] |}.
Proof. repeat split; vm_compute; reflexivity. Qed.

(** C2: the set clause carries no value. Two non-empty field maps with the
    same keys in the same order give, under one column map, the same
    [setCols] whatever their values are; the values come back in [values]
    only. *)
Theorem setCols_ignores_values
    (data1 data2 : list (string * value)) (jsToSql : gmap string string) :
  data1 <> [] ->
  Object_keys data1 = Object_keys data2 ->
  exists u1 u2,
    sqlForPartialUpdate data1 jsToSql = Ok u1
    /\ sqlForPartialUpdate data2 jsToSql = Ok u2
    /\ setCols u1 = setCols u2
    /\ values u1 = Object_values data1
    /\ values u2 = Object_values data2.
Proof.
  intros Hne Hkeys.
  assert (Hne2 : data2 <> []).
  { intros ->. destruct data1; [congruence|discriminate]. }
  rewrite (sqlForPartialUpdate_nonempty data1), (sqlForPartialUpdate_nonempty data2)
    by assumption.
  eexists _, _. split; [reflexivity|]. split; [reflexivity|].
  cbn [setCols values]. rewrite Hkeys. auto.
Qed.

Lemma setCols_ignores_values_witness :
  exists u1 u2,
    sqlForPartialUpdate [("title", VStr "J1"); ("salary", VNum 10)] ∅ = Ok u1
    /\ sqlForPartialUpdate
         [("title", VStr "x', salary=0 --"); ("salary", VNull)] ∅ = Ok u2
    /\ setCols u1 = setCols u2
    /\ values u1 = [VStr "J1"; VNum 10]
    /\ values u2 = [VStr "x', salary=0 --"; VNull].
Proof.
  apply (setCols_ignores_values
           [("title", VStr "J1"); ("salary", VNum 10)]
           [("title", VStr "x', salary=0 --"); ("salary", VNull)] ∅).
  - discriminate.
  - reflexivity.
Defined.

(** ** The authorization gates *)

Import Auth.

Section GateFacts.

Implicit Types (req : request) (res : response).

Lemma ensureLoggedIn_cases req res :
  ensureLoggedIn req res
  = if truthy (user res) then Next else NextErr UnauthorizedError.
Proof. unfold ensureLoggedIn. destruct (truthy (user res)); reflexivity. Qed.

Lemma ensureAdmin_cases req res :
  ensureAdmin req res
  = if nullish (user res) then NextErr (TypeError "isAdmin")
    else if truthy (field (user res) "isAdmin") then Next
    else NextErr UnauthorizedError.
Proof.
  unfold ensureAdmin, field.
  destruct (user res) as [| |b|n|s|props|f]; simpl; try reflexivity.
  destruct (truthy (own props "isAdmin")); reflexivity.
Qed.

Lemma strict_eq_str owner v :
  strict_eq (VStr owner) v = true <-> v = VStr owner.
Proof.
  destruct v; simpl; try (split; [discriminate|congruence]).
  rewrite String.eqb_eq. split; congruence.
Qed.

Lemma ensureAdminOrUser_cases req res :
  ensureAdminOrUser req res
  = if nullish (user res) then NextErr (TypeError "isAdmin")
    else if truthy (field (user res) "isAdmin")
            || strict_eq (read (params req) "username")
                         (field (user res) "username")
         then Next
         else NextErr UnauthorizedError.
Proof.
  unfold ensureAdminOrUser, field.
  destruct (user res) as [| |b|n|s|props|f]; simpl; try reflexivity;
    try (destruct (strict_eq _ VUndefined); reflexivity).
  destruct (truthy (own props "isAdmin")); simpl; [reflexivity|].
  destruct (strict_eq _ _); reflexivity.
Qed.

Lemma nullish_falsy v : nullish v = true -> truthy v = false.
Proof. destruct v; simpl; congruence. Qed.

(** With the slot holding anything that can be read from, a gate either
    passes or fails with Unauthorized. *)
Lemma gate_readable g req res :
  nullish (user res) = false ->
  gate_fn g req res = Next \/ gate_fn g req res = NextErr UnauthorizedError.
Proof.
  intros Hn. destruct g; simpl.
  - rewrite ensureLoggedIn_cases. destruct (truthy _); auto.
  - rewrite ensureAdmin_cases, Hn. destruct (truthy _); auto.
  - rewrite ensureAdminOrUser_cases, Hn. destruct (_ || _); auto.
Qed.

Lemma run_chain_pass (gs : list gate) req res :
  run_chain (map gate_fn gs) req res = Next
  <-> Forall (fun g => gate_fn g req res = Next) gs.
Proof.
  induction gs as [|g gs IH]; simpl.
  - split; [constructor|reflexivity].
  - destruct (gate_fn g req res) eqn:Hg.
    + rewrite IH. split.
      * intros H. constructor; assumption.
      * intros H. inversion H; assumption.
    + split; [discriminate|]. intros H. inversion H; congruence.
Qed.

Lemma run_chain_readable (gs : list gate) req res :
  nullish (user res) = false ->
  run_chain (map gate_fn gs) req res = Next
  \/ run_chain (map gate_fn gs) req res = NextErr UnauthorizedError.
Proof.
  intros Hn. induction gs as [|g gs IH]; simpl; [auto|].
  destruct (gate_readable g req res Hn) as [-> | ->]; auto.
Qed.

End GateFacts.

(** The unit tests of the gates on the model. *)
Example ensureLoggedIn_works :
  ensureLoggedIn {| headers := None; params := ∅ |}
    {| locals := {[ "user" := VObj [("username", VStr "test");
                                    ("isAdmin", VBool false)] ]} |}
  = Next
  /\ ensureLoggedIn {| headers := None; params := ∅ |} {| locals := ∅ |}
     = NextErr UnauthorizedError.
Proof. split; vm_compute; reflexivity. Qed.

Example ensureAdmin_works :
  ensureAdmin {| headers := None; params := ∅ |}
    {| locals := {[ "user" := VObj [("username", VStr "test");
                                    ("isAdmin", VBool true)] ]} |}
  = Next
  /\ ensureAdmin {| headers := None; params := ∅ |}
       {| locals := {[ "user" := VObj [("username", VStr "test");
                                       ("isAdmin", VBool false)] ]} |}
     = NextErr UnauthorizedError
  /\ ensureAdmin {| headers := None; params := ∅ |}
       {| locals := {[ "user" := VObj [("username", VStr "test")] ]} |}
     = NextErr UnauthorizedError.
Proof. repeat split; vm_compute; reflexivity. Qed.

Example ensureAdminOrUser_works :
  let req := {| headers := None; params := {[ "username" := "user1" ]} |} in
  let as_user name admin :=
    {| locals := {[ "user" := VObj [("username", VStr name);
                                    ("isAdmin", VBool admin)] ]} |} in
  ensureAdminOrUser req (as_user "user1" true) = Next
  /\ ensureAdminOrUser req (as_user "user1" false) = Next
  /\ ensureAdminOrUser req (as_user "user2" true) = Next
  /\ ensureAdminOrUser req (as_user "user2" false) = NextErr UnauthorizedError
  /\ ensureAdminOrUser req {| locals := {[ "user" := VObj [] ]} |}
     = NextErr UnauthorizedError.
Proof. repeat split; vm_compute; reflexivity. Qed.

(** C3, as stated, fails on an empty identity slot: reading [isAdmin] from
    [undefined] throws, and the [catch] forwards that TypeError, not an
    Unauthorized failure. It also fails on a claim whose [isAdmin] is
    truthy without being [true]: the gate tests truthiness and passes. *)
Lemma ensureAdmin_empty_slot :
  ensureAdmin {| headers := None; params := ∅ |} {| locals := ∅ |}
  = NextErr (TypeError "isAdmin")
  /\ NextErr (TypeError "isAdmin") <> NextErr UnauthorizedError
  /\ ensureAdmin {| headers := None; params := ∅ |}
       {| locals := {[ "user" := VObj [("username", VStr "test");
                                       ("isAdmin", VNum 1)] ]} |}
     = Next
  /\ strict_eq (VNum 1) (VBool true) = false.
Proof.
  split; [vm_compute; reflexivity|].
  split; [discriminate|].
  split; vm_compute; reflexivity.
Qed.

(** C3 (amended): [ensureAdmin] passes exactly when the identity slot can
    be read from (it is neither [undefined] nor [null]) and its [isAdmin]
    is truthy. With such a slot and [isAdmin] falsy or missing it fails
    with Unauthorized. On an empty slot it fails as well, through
    [next(err)], and behind [ensureLoggedIn], where the routes place the
    gate, that failure is Unauthorized. *)
Theorem ensureAdmin_spec (req : request) (res : response) :
  (ensureAdmin req res = Next
   <-> nullish (user res) = false
       /\ truthy (field (user res) "isAdmin") = true)
  /\ (nullish (user res) = false ->
      truthy (field (user res) "isAdmin") = false ->
      ensureAdmin req res = NextErr UnauthorizedError)
  /\ (nullish (user res) = true ->
      (exists err, ensureAdmin req res = NextErr err)
      /\ run_chain [ensureLoggedIn; ensureAdmin] req res
         = NextErr UnauthorizedError).
Proof.
  rewrite ensureAdmin_cases. split; [|split].
  - destruct (nullish (user res)); [split; [discriminate|intros []; discriminate]|].
    destruct (truthy _); split; auto; try discriminate. intros []; discriminate.
  - intros -> ->. reflexivity.
  - intros Hn. rewrite Hn. split; [eauto|]. simpl.
    rewrite ensureLoggedIn_cases, (nullish_falsy _ Hn). reflexivity.
Qed.

Lemma ensureAdmin_spec_witness :
  ensureAdmin {| headers := None; params := ∅ |}
    {| locals := {[ "user" := VObj [("username", VStr "test")] ]} |}
  = NextErr UnauthorizedError
  /\ run_chain [ensureLoggedIn; ensureAdmin]
       {| headers := None; params := ∅ |} {| locals := ∅ |}
     = NextErr UnauthorizedError.
Proof.
  split.
  - apply (proj1 (proj2 (ensureAdmin_spec _ _))); reflexivity.
  - apply (proj2 (proj2 (ensureAdmin_spec _ _))); reflexivity.
Defined.

(** C4, as stated, fails on an empty identity slot: [userObj.isAdmin]
    throws on [undefined] and the TypeError is what reaches [next], not an
    Unauthorized failure. *)
Lemma ensureAdminOrUser_empty_slot :
  ensureAdminOrUser {| headers := None; params := {[ "username" := "user1" ]} |}
                    {| locals := ∅ |}
  = NextErr (TypeError "isAdmin")
  /\ NextErr (TypeError "isAdmin") <> NextErr UnauthorizedError.
Proof. split; [vm_compute; reflexivity|discriminate]. Qed.

(** C4 (amended): for a path whose username is [owner], [ensureAdminOrUser]
    passes exactly when the identity slot can be read from and either its
    [isAdmin] is truthy or its [username] is the string [owner]. With such
    a slot and neither condition (a missing [username] included) it fails
    with Unauthorized. On an empty slot it fails as well, through
    [next(err)], and behind [ensureLoggedIn] that failure is
    Unauthorized. *)
Theorem ensureAdminOrUser_spec (req : request) (res : response) (owner : string) :
  params req !! "username" = Some owner ->
  (ensureAdminOrUser req res = Next
   <-> nullish (user res) = false
       /\ (truthy (field (user res) "isAdmin") = true
           \/ field (user res) "username" = VStr owner))
  /\ (nullish (user res) = false ->
      truthy (field (user res) "isAdmin") = false ->
      field (user res) "username" <> VStr owner ->
      ensureAdminOrUser req res = NextErr UnauthorizedError)
  /\ (nullish (user res) = true ->
      (exists err, ensureAdminOrUser req res = NextErr err)
      /\ run_chain [ensureLoggedIn; ensureAdminOrUser] req res
         = NextErr UnauthorizedError).
Proof.
  intros Howner. rewrite ensureAdminOrUser_cases.
  unfold read. rewrite Howner.
  pose proof (strict_eq_str owner (field (user res) "username")) as Heq.
  split; [|split].
  - destruct (nullish (user res)); [split; [discriminate|intros []; discriminate]|].
    destruct (truthy _); cbn [orb]; [tauto|].
    destruct (strict_eq _ _) eqn:E.
    + split; auto. intros _. split; auto. right. apply Heq. reflexivity.
    + split; [discriminate|]. intros [_ [H|H]]; [discriminate|].
      apply Heq in H. discriminate.
  - intros -> -> Hne. cbn [orb].
    destruct (strict_eq _ _) eqn:E; [|reflexivity].
    exfalso. apply Hne, Heq. reflexivity.
  - intros Hn. rewrite Hn. split; [eauto|]. simpl.
    rewrite ensureLoggedIn_cases, (nullish_falsy _ Hn). reflexivity.
Qed.

Lemma ensureAdminOrUser_spec_witness :
  ensureAdminOrUser {| headers := None; params := {[ "username" := "user1" ]} |}
    {| locals := {[ "user" := VObj [("isAdmin", VBool false)] ]} |}
  = NextErr UnauthorizedError
  /\ run_chain [ensureLoggedIn; ensureAdminOrUser]
       {| headers := None; params := {[ "username" := "user1" ]} |}
       {| locals := ∅ |}
     = NextErr UnauthorizedError.
Proof.
  split.
  - destruct (ensureAdminOrUser_spec
                {| headers := None; params := {[ "username" := "user1" ]} |}
                {| locals := {[ "user" := VObj [("isAdmin", VBool false)] ]} |}
                "user1") as (_ & Hfail & _); [reflexivity|].
    apply Hfail; [reflexivity|reflexivity|discriminate].
  - destruct (ensureAdminOrUser_spec
                {| headers := None; params := {[ "username" := "user1" ]} |}
                {| locals := ∅ |} "user1") as (_ & _ & Hempty); [reflexivity|].
    apply Hempty. reflexivity.
Defined.

(** C8, as stated, fails on an empty identity slot: behind [ensureLoggedIn]
    the request fails with Unauthorized, while [ensureAdmin] run first
    fails it with a TypeError. *)
Lemma gate_order_empty_slot :
  run_chain [ensureLoggedIn; ensureAdmin]
    {| headers := None; params := ∅ |} {| locals := ∅ |}
  = NextErr UnauthorizedError
  /\ run_chain [ensureAdmin; ensureLoggedIn]
       {| headers := None; params := ∅ |} {| locals := ∅ |}
     = NextErr (TypeError "isAdmin")
  /\ NextErr UnauthorizedError <> NextErr (TypeError "isAdmin").
Proof.
  split; [vm_compute; reflexivity|].
  split; [vm_compute; reflexivity|discriminate].
Qed.

(** C8 (amended): reordering the gates of a chain never changes whether
    the request passes. It leaves the whole outcome unchanged, failure
    kind included, whenever the identity slot can be read from. A chain
    that starts with [ensureLoggedIn], as the routes declare it, passes or
    fails with Unauthorized on every slot. *)
Theorem gate_order (gs gs' : list gate) (req : request) (res : response) :
  Permutation gs gs' ->
  (run_chain (map gate_fn gs) req res = Next
   <-> run_chain (map gate_fn gs') req res = Next)
  /\ (nullish (user res) = false ->
      run_chain (map gate_fn gs) req res = run_chain (map gate_fn gs') req res)
  /\ (run_chain (map gate_fn (LoggedIn :: gs)) req res = Next
      \/ run_chain (map gate_fn (LoggedIn :: gs)) req res
         = NextErr UnauthorizedError).
Proof.
  intros Hperm.
  assert (Hpass : run_chain (map gate_fn gs) req res = Next
                  <-> run_chain (map gate_fn gs') req res = Next).
  { rewrite !run_chain_pass. split; intros H.
    - eapply Permutation_Forall; eassumption.
    - eapply Permutation_Forall; [symmetry|]; eassumption. }
  split; [exact Hpass|]. split.
  - intros Hn.
    destruct (run_chain_readable gs req res Hn) as [H|H],
             (run_chain_readable gs' req res Hn) as [H'|H']; try congruence.
    + apply Hpass in H. congruence.
    + apply Hpass in H'. congruence.
  - destruct (nullish (user res)) eqn:Hn.
    + right. simpl. rewrite ensureLoggedIn_cases, (nullish_falsy _ Hn).
      reflexivity.
    + apply (run_chain_readable (LoggedIn :: gs) req res Hn).
Qed.

Lemma gate_order_witness :
  run_chain [ensureLoggedIn; ensureAdmin]
    {| headers := None; params := ∅ |}
    {| locals := {[ "user" := VObj [("username", VStr "u1");
                                    ("isAdmin", VBool false)] ]} |}
  = run_chain [ensureAdmin; ensureLoggedIn]
      {| headers := None; params := ∅ |}
      {| locals := {[ "user" := VObj [("username", VStr "u1");
                                      ("isAdmin", VBool false)] ]} |}.
Proof.
  apply (proj1 (proj2 (gate_order [LoggedIn; Admin] [Admin; LoggedIn] _ _
                                  (perm_swap Admin LoggedIn [])))).
  reflexivity.
Defined.

(** ** The credential verifier *)

Section HeaderFacts.

Local Arguments String.append !_ _ / : simpl nomatch.

Lemma trimEnd_spaceless (t : string) : spaceless t = true -> trimEnd t = t.
Proof.
  induction t as [|c t IH]; simpl; [reflexivity|].
  intros [Hc Ht]%andb_prop. rewrite (IH Ht).
  destruct t; [|reflexivity].
  destruct (is_space c); [discriminate|reflexivity].
Qed.

Lemma trimStart_spaceless (t : string) : spaceless t = true -> trimStart t = t.
Proof.
  destruct t as [|c t]; simpl; [reflexivity|].
  intros [Hc _]%andb_prop. destruct (is_space c); [discriminate|reflexivity].
Qed.

Lemma trim_spaceless (t : string) : spaceless t = true -> trim t = t.
Proof.
  intros H. unfold trim. rewrite (trimStart_spaceless t H).
  apply trimEnd_spaceless, H.
Qed.

Lemma trimEnd_app (s t : string) :
  t <> EmptyString -> trimEnd t = t -> trimEnd (s ++ t) = s ++ t.
Proof.
  intros Hne Ht. induction s as [|c s IH]; simpl; [exact Ht|].
  rewrite IH. destruct (s ++ t) eqn:E; [|reflexivity].
  destruct s; simpl in E; [congruence|discriminate].
Qed.

Lemma after_prefix_Some (p s r : string) :
  after_prefix p s = Some r -> s = p ++ r.
Proof.
  revert s. induction p as [|a p IH]; intros s; simpl.
  - congruence.
  - destruct s as [|b s]; [discriminate|].
    destruct (Ascii.eqb_spec a b) as [->|]; [|discriminate].
    intros H. rewrite (IH _ H). reflexivity.
Qed.

(** Two words without white space that are each followed by a space in
    the same string are the same word. *)
Lemma word_before_space (a b x y : string) :
  spaceless a = true -> spaceless b = true ->
  a ++ " " ++ x = b ++ " " ++ y -> a = b.
Proof.
  revert b. induction a as [|c a IH]; intros [|d b]; simpl; intros Ha Hb E.
  - reflexivity.
  - injection E as <- _. discriminate.
  - injection E as -> _. discriminate.
  - injection E as -> E.
    apply andb_prop in Ha as [_ Ha]. apply andb_prop in Hb as [_ Hb].
    f_equal. eapply IH; eassumption.
Qed.

Lemma strip_bearer_other (scheme rest : string) :
  spaceless scheme = true ->
  scheme <> "Bearer" -> scheme <> "bearer" ->
  strip_bearer (scheme ++ " " ++ rest) = scheme ++ " " ++ rest.
Proof.
  intros Hs H1 H2. unfold strip_bearer.
  destruct (after_prefix "Bearer " _) as [r|] eqn:E1.
  { apply after_prefix_Some in E1. exfalso. apply H1.
    apply (word_before_space scheme "Bearer" rest r Hs eq_refl E1). }
  destruct (after_prefix "bearer " _) as [r|] eqn:E2; [|reflexivity].
  apply after_prefix_Some in E2. exfalso. apply H2.
  apply (word_before_space scheme "bearer" rest r Hs eq_refl E2).
Qed.

Lemma spaceless_space (scheme rest : string) :
  spaceless (scheme ++ " " ++ rest) = false.
Proof.
  induction scheme as [|c s IH]; simpl in *; [reflexivity|].
  rewrite IH. apply andb_false_r.
Qed.

Lemma trim_scheme_token (scheme token : string) :
  scheme <> EmptyString -> spaceless scheme = true ->
  token <> EmptyString -> spaceless token = true ->
  trim (scheme ++ " " ++ token) = scheme ++ " " ++ token.
Proof.
  intros Hs Hsp Ht Htp. unfold trim.
  assert (Hstart : trimStart (scheme ++ " " ++ token) = scheme ++ " " ++ token).
  { destruct scheme as [|c s]; [congruence|]. simpl in *.
    apply andb_prop in Hsp as [Hc _].
    destruct (is_space c); [discriminate|reflexivity]. }
  rewrite Hstart.
  apply trimEnd_app; [discriminate|].
  apply (trimEnd_app " " token Ht), trimEnd_spaceless, Htp.
Qed.

End HeaderFacts.

Section AuthenticateFacts.

Variable jwt_verify : string -> string -> result value.
Variable SECRET_KEY : string.

Local Abbreviation authenticate := (authenticateJWT jwt_verify SECRET_KEY).

(** What [authenticateJWT] does with a header value that is present. *)
Lemma authenticateJWT_header (req : request) (res : response) (h : string) :
  authorization req = VStr h -> h <> EmptyString ->
  authenticate req res
  = match jwt_verify (trim (strip_bearer h)) SECRET_KEY with
    | Ok payload => (set_user res payload, Next)
    | Throw _ => (res, Next)
    end.
Proof.
  intros Hh Hne. unfold authenticateJWT. rewrite Hh. simpl.
  apply String.eqb_neq in Hne. rewrite Hne. simpl.
  destruct (jwt_verify _ _); reflexivity.
Qed.

Lemma user_set_user (res : response) (v : value) : user (set_user res v) = v.
Proof. unfold user, set_user. simpl. rewrite lookup_insert_eq. reflexivity. Qed.

(** C5: [authenticateJWT] always calls [next()] without an error. Without
    an Authorization header it leaves [res.locals] as it was. With the
    header [Bearer <token>], where the token has no white space and
    verifies against the secret, the identity slot becomes the token's
    payload. When verification throws, whatever the reason, [res.locals] is
    left as it was, exactly as without a header. *)
Theorem authenticateJWT_spec (req : request) (res : response) :
  snd (authenticate req res) = Next
  /\ (truthy (authorization req) = false -> authenticate req res = (res, Next))
  /\ (forall token payload,
        authorization req = VStr ("Bearer " ++ token) ->
        spaceless token = true ->
        jwt_verify token SECRET_KEY = Ok payload ->
        authenticate req res = (set_user res payload, Next)
        /\ user (fst (authenticate req res)) = payload)
  /\ (forall h err,
        authorization req = VStr h ->
        jwt_verify (trim (strip_bearer h)) SECRET_KEY = Throw err ->
        authenticate req res = (res, Next)).
Proof.
  split; [|split; [|split]].
  - unfold authenticateJWT. destruct (truthy _); [|reflexivity].
    destruct (jwt_verify _ _); reflexivity.
  - intros Hf. unfold authenticateJWT. rewrite Hf. reflexivity.
  - intros token payload Hh Hsp Hv.
    assert (E : authenticate req res = (set_user res payload, Next)).
    { rewrite (authenticateJWT_header req res _ Hh) by discriminate.
      change (strip_bearer ("Bearer " ++ token)) with token.
      rewrite (trim_spaceless token Hsp), Hv. reflexivity. }
    split; [exact E|]. rewrite E. apply user_set_user.
  - intros h err Hh Hv. unfold authenticateJWT. rewrite Hh.
    destruct (truthy (VStr h)); [|reflexivity].
    cbn [toString]. rewrite Hv. reflexivity.
Qed.

(** jsonwebtoken accepts only the compact serialization, three base64url
    segments joined by dots: a string that is empty or holds white space is
    refused before any signature is checked. *)
Hypothesis jwt_verify_compact :
  forall token secret payload,
    jwt_verify token secret = Ok payload ->
    token <> EmptyString /\ spaceless token = true.

(** C9 (amended): for a token that verifies against the secret, the
    header [<scheme> <token>] populates the identity slot with the decoded
    claim when the scheme word is spelled [Bearer] or [bearer]. With any
    other scheme word, other capitalizations such as [BEARER] included,
    the pattern strips nothing, the whole header value goes to
    verification and is refused, and the slot stays as it was. *)
Theorem bearer_scheme_spelling
    (req : request) (res : response) (scheme token : string) (payload : value) :
  jwt_verify token SECRET_KEY = Ok payload ->
  authorization req = VStr (scheme ++ " " ++ token) ->
  ((scheme = "Bearer" \/ scheme = "bearer") ->
   authenticate req res = (set_user res payload, Next)
   /\ user (fst (authenticate req res)) = payload)
  /\ (scheme <> EmptyString -> spaceless scheme = true ->
      scheme <> "Bearer" -> scheme <> "bearer" ->
      authenticate req res = (res, Next)).
Proof.
  intros Hv Hh. destruct (jwt_verify_compact _ _ _ Hv) as [Hne Hsp].
  assert (Hhne : scheme ++ " " ++ token <> EmptyString).
  { destruct scheme; discriminate. }
  rewrite (authenticateJWT_header req res _ Hh Hhne). split.
  - assert (E : scheme = "Bearer" \/ scheme = "bearer" ->
                strip_bearer (scheme ++ " " ++ token) = token)
      by (intros [-> | ->]; reflexivity).
    intros Hs. rewrite (E Hs), (trim_spaceless token Hsp), Hv.
    split; [reflexivity|apply user_set_user].
  - intros Hs Hssp H1 H2.
    rewrite (strip_bearer_other scheme token Hssp H1 H2).
    rewrite (trim_scheme_token scheme token Hs Hssp Hne Hsp).
    destruct (jwt_verify (scheme ++ " " ++ token) SECRET_KEY) as [p|e] eqn:E;
      [|reflexivity].
    apply jwt_verify_compact in E as [_ E].
    rewrite spaceless_space in E. discriminate.
Qed.

End AuthenticateFacts.

Lemma verify_only_compact (token0 secret0 : string) (claim : value) :
  token0 <> EmptyString -> spaceless token0 = true ->
  forall token secret payload,
    verify_only token0 secret0 claim token secret = Ok payload ->
    token <> EmptyString /\ spaceless token = true.
Proof.
  intros Hne Hsp token secret payload. unfold verify_only.
  destruct (String.eqb_spec token token0) as [->|]; [|discriminate].
  auto.
Qed.

Lemma authenticateJWT_spec_witness :
  authenticateJWT (verify_only "h.p.s" "secret" test_payload) "secret"
    {| headers := None; params := ∅ |} {| locals := ∅ |}
  = ({| locals := ∅ |}, Next)
  /\ user (fst (authenticateJWT (verify_only "h.p.s" "secret" test_payload)
                  "secret" (with_authorization "Bearer h.p.s")
                  {| locals := ∅ |}))
     = test_payload
  /\ authenticateJWT (verify_only "h.p.s" "secret" test_payload) "secret"
       (with_authorization "Bearer x.y.z") {| locals := ∅ |}
     = ({| locals := ∅ |}, Next).
Proof.
  split; [|split].
  - apply (proj1 (proj2 (authenticateJWT_spec
             (verify_only "h.p.s" "secret" test_payload) "secret" _ _))).
    reflexivity.
  - apply (proj1 (proj2 (proj2 (authenticateJWT_spec
             (verify_only "h.p.s" "secret" test_payload) "secret"
             (with_authorization "Bearer h.p.s") {| locals := ∅ |}))) "h.p.s");
      reflexivity.
  - apply (proj2 (proj2 (proj2 (authenticateJWT_spec
             (verify_only "h.p.s" "secret" test_payload) "secret"
             (with_authorization "Bearer x.y.z") {| locals := ∅ |})))
             "Bearer x.y.z" (JsonWebTokenError "invalid token"));
      reflexivity.
Defined.

(** C9, as stated, fails for the scheme word [BEARER]: the pattern
    [/^[Bb]earer /] does not match it, so the string handed to
    verification is the whole header value, which is not a token. The
    verifier here accepts the token [h.p.s]; presented as [Bearer h.p.s] it
    populates the slot, presented as [BEARER h.p.s] it leaves it empty. *)
Lemma bearer_uppercase_refused :
  verify_only "h.p.s" "secret" test_payload "h.p.s" "secret" = Ok test_payload
  /\ user (fst (authenticateJWT (verify_only "h.p.s" "secret" test_payload)
                  "secret" (with_authorization "Bearer h.p.s")
                  {| locals := ∅ |}))
     = test_payload
  /\ user (fst (authenticateJWT (verify_only "h.p.s" "secret" test_payload)
                  "secret" (with_authorization "BEARER h.p.s")
                  {| locals := ∅ |}))
     = VUndefined
  /\ VUndefined <> test_payload.
Proof.
  split; [reflexivity|].
  split; [vm_compute; reflexivity|].
  split; [vm_compute; reflexivity|discriminate].
Qed.

Lemma bearer_scheme_spelling_witness :
  user (fst (authenticateJWT (verify_only "h.p.s" "secret" test_payload)
               "secret" (with_authorization "bearer h.p.s")
               {| locals := ∅ |}))
  = test_payload
  /\ authenticateJWT (verify_only "h.p.s" "secret" test_payload) "secret"
       (with_authorization "BEARER h.p.s") {| locals := ∅ |}
     = ({| locals := ∅ |}, Next).
Proof.
  split.
  - apply (proj1 (bearer_scheme_spelling
             (verify_only "h.p.s" "secret" test_payload) "secret"
             (verify_only_compact "h.p.s" "secret" test_payload
                ltac:(discriminate) eq_refl)
             (with_authorization "bearer h.p.s") {| locals := ∅ |}
             "bearer" "h.p.s" test_payload eq_refl eq_refl)).
    right. reflexivity.
  - apply (proj2 (bearer_scheme_spelling
             (verify_only "h.p.s" "secret" test_payload) "secret"
             (verify_only_compact "h.p.s" "secret" test_payload
                ltac:(discriminate) eq_refl)
             (with_authorization "BEARER h.p.s") {| locals := ∅ |}
             "BEARER" "h.p.s" test_payload eq_refl eq_refl));
      [discriminate|reflexivity|discriminate|discriminate].
Defined.

(** ** The job filter *)

Import Job.

Section FilterFacts.

Local Arguments String.append !_ _ / : simpl nomatch.

Lemma prefix_app (p s : string) :
  String.prefix p s = true <-> exists r, s = p ++ r.
Proof.
  revert s. induction p as [|a p IH]; intros s.
  - destruct s; simpl; split; eauto.
  - destruct s as [|b s]; simpl.
    + split; [discriminate|]. intros [r Hr]. discriminate.
    + destruct (ascii_dec a b) as [->|Hab].
      * rewrite IH. split; intros [r Hr]; exists r; congruence.
      * split; [discriminate|]. intros [r Hr]. congruence.
Qed.

Lemma includes_unfold (s search : string) :
  includes s search
  = if String.prefix search s then true
    else match s with
         | EmptyString => false
         | String _ rest => includes rest search
         end.
Proof. destruct s; reflexivity. Qed.

Lemma includes_spec (s search : string) :
  includes s search = true <-> exists pre post, s = pre ++ search ++ post.
Proof.
  split.
  - induction s as [|c s IH]; rewrite includes_unfold;
      destruct (String.prefix search _) eqn:E.
    + apply prefix_app in E as [r ->]. intros _. exists EmptyString, r. reflexivity.
    + discriminate.
    + apply prefix_app in E as [r ->]. intros _. exists EmptyString, r. reflexivity.
    + intros H. destruct (IH H) as (pre & post & ->).
      exists (String c pre), post. reflexivity.
  - intros (pre & post & ->). induction pre as [|c pre IH];
      rewrite includes_unfold.
    + replace (String.prefix search (EmptyString ++ search ++ post)) with true;
        [reflexivity|].
      symmetry. apply prefix_app. exists post. reflexivity.
    + destruct (String.prefix search _); [reflexivity|exact IH].
Qed.

Lemma filter_all {A} (l : list A) : List.filter (fun _ => true) l = l.
Proof. induction l; simpl; congruence. Qed.

Lemma filter_twice {A} (f g : A -> bool) (l : list A) :
  List.filter g (List.filter f l) = List.filter (fun x => f x && g x) l.
Proof.
  induction l as [|x l IH]; simpl; [reflexivity|].
  destruct (f x); simpl; [|exact IH].
  destruct (g x); congruence.
Qed.

Lemma filter_when {A} (b : bool) (f : A -> bool) (l : list A) :
  (if b then List.filter f l else l) = List.filter (fun x => negb b || f x) l.
Proof. destruct b; simpl; [reflexivity|]. symmetry. apply filter_all. Qed.

End FilterFacts.

Section FilterJobsFacts.

(** [String.prototype.toLowerCase]; the lower case of the empty string is
    the empty string. *)
Variable toLowerCase : string -> string.
Hypothesis toLowerCase_empty : toLowerCase EmptyString = EmptyString.

Implicit Types (data : list job) (o : Options.t) (j : job).

Lemma filterJobs_results data o :
  filterJobs toLowerCase data o
  = if (length (List.filter (passesb toLowerCase o) data) =? 0)%nat
    then Throw (NotFoundError "No jobs match the desired criteria")
    else Ok (List.filter (passesb toLowerCase o) data).
Proof.
  unfold filterJobs.
  set (filter1 := match Options.title o with Some _ => _ | None => _ end).
  set (filter2 := match Options.minSalary o with Some _ => _ | None => _ end).
  set (results := match Options.hasEquity o with Some _ => _ | None => _ end).
  assert (E : results = List.filter (passesb toLowerCase o) data);
    [|rewrite E; reflexivity].
  subst results filter2 filter1. unfold passesb.
  destruct (Options.title o) as [t|], (Options.minSalary o) as [m|],
           (Options.hasEquity o) as [[|]|];
    rewrite ?filter_when, ?filter_twice; cbn [truthy negb orb andb];
    try rewrite <- (filter_all data) at 1;
    rewrite ?filter_twice;
    apply List.filter_ext; intros j; cbn [andb];
    rewrite ?Bool.negb_involutive, ?Bool.andb_true_r, ?Bool.andb_assoc;
    reflexivity.
Qed.

Lemma ci_substring_includes (t : string) j :
  includes (toLowerCase (title j)) (toLowerCase t) = true
  <-> ci_substring toLowerCase t (title j).
Proof. apply includes_spec. Qed.

Lemma ci_substring_empty (s : string) : ci_substring toLowerCase EmptyString s.
Proof.
  exists EmptyString, (toLowerCase s). rewrite toLowerCase_empty. reflexivity.
Qed.

Lemma equity_positive_spec j :
  equity_positive j = true <-> numeric_positive (equity j).
Proof.
  unfold equity_positive, numeric_positive.
  destruct (equity j) as [[q| |[|]]|]; try (split; [discriminate|]; intros H);
    try contradiction; try discriminate.
  - unfold Qlt. change (Qnum half_min_value) with 1%Z.
    rewrite Z.mul_1_l. apply Z.ltb_lt.
  - split; reflexivity.
Qed.

Lemma passesb_spec o j :
  passesb toLowerCase o j = true <-> passes toLowerCase o j.
Proof.
  unfold passesb, passes. rewrite !andb_true_iff.
  assert (Ht : match Options.title o with
               | Some t => String.eqb t EmptyString
                           || includes (toLowerCase (title j)) (toLowerCase t)
               | None => true
               end = true
               <-> forall t, Options.title o = Some t -> t <> EmptyString ->
                             ci_substring toLowerCase t (title j)).
  { destruct (Options.title o) as [t|]; [|split; [discriminate|reflexivity]].
    rewrite orb_true_iff, String.eqb_eq, ci_substring_includes. split.
    - intros [H|H] t' [= <-] Hne; [contradiction|exact H].
    - intros H. destruct (string_dec t EmptyString); [auto|].
      right. apply H; auto. }
  assert (Hm : match Options.minSalary o with
               | Some m => (m =? 0)%Z || salary_ge j m
               | None => true
               end = true
               <-> forall m, Options.minSalary o = Some m -> m <> 0%Z ->
                             (m <= default 0 (salary j))%Z).
  { destruct (Options.minSalary o) as [m|]; [|split; [discriminate|reflexivity]].
    unfold salary_ge. rewrite orb_true_iff, Z.eqb_eq, Z.leb_le. split.
    - intros [H|H] m' [= <-] Hne; [contradiction|exact H].
    - intros H. destruct (Z.eq_dec m 0%Z); [auto|].
      right. apply H; auto. }
  assert (He : match Options.hasEquity o with
               | Some true => equity_positive j
               | _ => true
               end = true
               <-> (Options.hasEquity o = Some true ->
                    numeric_positive (equity j))).
  { destruct (Options.hasEquity o) as [[|]|];
      [|split; [discriminate|reflexivity]..].
    rewrite equity_positive_spec. split; auto. }
  rewrite Ht, Hm, He. tauto.
Qed.

(** On a record of the table a supplied empty title and a supplied bound
    of 0 hold of themselves, so that skipping them changes nothing. *)
Lemma passes_supplied_record o j :
  (0 <= default 0 (salary j))%Z ->
  (passes_supplied toLowerCase o j <-> passes toLowerCase o j).
Proof.
  intros Hs. unfold passes_supplied, passes. split.
  - intros (Ht & Hm & He). repeat split; auto.
  - intros (Ht & Hm & He). repeat split; auto.
    + intros t E. destruct (string_dec t EmptyString) as [->|Hne]; [|auto].
      apply ci_substring_empty.
    + intros m E. destruct (Z.eq_dec m 0%Z) as [->|Hne]; auto.
Qed.

Lemma passesb_supplied data o j :
  job_records data -> In j data ->
  (passesb toLowerCase o j = true <-> passes_supplied toLowerCase o j).
Proof.
  intros Hrec Hj. rewrite passesb_spec. symmetry.
  apply passes_supplied_record.
  unfold job_records in Hrec. rewrite List.Forall_forall in Hrec.
  apply Hrec, Hj.
Qed.

Lemma filter_nil_iff {A} (f : A -> bool) (l : list A) :
  List.filter f l = [] <-> forall x, In x l -> f x = false.
Proof.
  induction l as [|x l IH]; simpl.
  - split; [tauto|reflexivity].
  - destruct (f x) eqn:E.
    + split; [discriminate|]. intros H. specialize (H x (or_introl eq_refl)).
      congruence.
    + rewrite IH. split.
      * intros H y [<-|Hy]; auto.
      * intros H y Hy. apply H. auto.
Qed.

End FilterJobsFacts.

Lemma job_records_fixtures : job_records [j1; j2; j3].
Proof.
  unfold job_records.
  repeat (apply List.Forall_cons; [vm_compute; discriminate|]).
  apply List.Forall_nil.
Defined.

(** The unit tests of [filterJobs] on the model. *)
Example filterJobs_all :
  filterJobs toLowerCase_ascii [j1; j2; j3]
    {| Options.title := Some "j"; Options.minSalary := Some 50000%Z;
       Options.hasEquity := Some false |}
  = Ok [j1; j2; j3].
Proof. vm_compute. reflexivity. Qed.

Example filterJobs_title :
  filterJobs toLowerCase_ascii [j1; j2; j3]
    {| Options.title := Some "J1"; Options.minSalary := None;
       Options.hasEquity := None |}
  = Ok [j1].
Proof. vm_compute. reflexivity. Qed.

Example filterJobs_minSalary :
  filterJobs toLowerCase_ascii [j1; j2; j3]
    {| Options.title := None; Options.minSalary := Some 100000%Z;
       Options.hasEquity := None |}
  = Ok [j2; j3].
Proof. vm_compute. reflexivity. Qed.

Example filterJobs_hasEquity :
  filterJobs toLowerCase_ascii [j1; j2; j3]
    {| Options.title := None; Options.minSalary := None;
       Options.hasEquity := Some true |}
  = Ok [j1; j2].
Proof. vm_compute. reflexivity. Qed.

Example filterJobs_none :
  filterJobs toLowerCase_ascii [j1; j2; j3]
    {| Options.title := Some "m"; Options.minSalary := None;
       Options.hasEquity := None |}
  = Throw (NotFoundError "No jobs match the desired criteria").
Proof. vm_compute. reflexivity. Qed.

(** What [job_records] rules out: were a salary below zero, a bound of 0,
    being falsy, would run no salary test and the row would be returned. *)
Remark filterJobs_below_zero (toLowerCase : string -> string) :
  ~ job_records [j_debt]
  /\ filterJobs toLowerCase [j_debt]
       {| Options.title := None; Options.minSalary := Some 0%Z;
          Options.hasEquity := None |}
     = Ok [j_debt].
Proof.
  split; [|reflexivity].
  intros H. apply List.Forall_inv in H. vm_compute in H. congruence.
Qed.

(** C6: [filterJobs] returns exactly the records of the collection, in
    their order, that satisfy every supplied predicate: the lower-cased
    title contains the lower-cased [title] option as a substring; the
    salary is at least [minSalary]; the equity, as the number
    [Number(equity)], is above zero when [hasEquity] is [true]. An absent
    option and [hasEquity] false add no predicate. The result is the
    collection filtered by the test [passesb], whatever the collection
    holds; on the rows of the table (a salary is null or not negative)
    that test is the conjunction of the supplied predicates.
    [toLowerCase] is the built-in of the language, of which only
    [toLowerCase "" = ""] is used. *)
Theorem filterJobs_spec (toLowerCase : string -> string)
    (data : list job) (o : Options.t) :
  (toLowerCase EmptyString = EmptyString ->
   job_records data ->
   forall j, In j data ->
     (passesb toLowerCase o j = true <-> passes_supplied toLowerCase o j))
  /\ (List.filter (passesb toLowerCase o) data <> [] ->
      filterJobs toLowerCase data o
      = Ok (List.filter (passesb toLowerCase o) data))
  /\ (forall results,
        filterJobs toLowerCase data o = Ok results ->
        results = List.filter (passesb toLowerCase o) data).
Proof.
  split.
  { intros Hlow Hrec j Hj. apply (passesb_supplied _ Hlow data); assumption. }
  rewrite filterJobs_results.
  destruct (List.filter (passesb toLowerCase o) data) as [|x l]; simpl.
  - split; [congruence|discriminate].
  - split; [reflexivity|congruence].
Qed.

Lemma filterJobs_spec_witness :
  filterJobs toLowerCase_ascii [j1; j2; j3]
    {| Options.title := Some "J"; Options.minSalary := Some 100000%Z;
       Options.hasEquity := Some true |}
  = Ok [j2]
  /\ passes_supplied toLowerCase_ascii
       {| Options.title := Some "J"; Options.minSalary := Some 100000%Z;
          Options.hasEquity := Some true |} j2.
Proof.
  destruct (filterJobs_spec toLowerCase_ascii [j1; j2; j3]
              {| Options.title := Some "J"; Options.minSalary := Some 100000%Z;
                 Options.hasEquity := Some true |})
    as (Hpass & Hresult & _).
  split.
  - apply Hresult. vm_compute. discriminate.
  - apply (Hpass eq_refl job_records_fixtures j2).
    + right. left. reflexivity.
    + vm_compute. reflexivity.
Defined.

(** C7: [filterJobs] throws NotFound and nothing else, and never returns
    an empty list. On the rows of the table (a salary is null or not
    negative) it throws NotFound exactly when no record of the collection
    satisfies the supplied predicates; when some record does, it returns
    the non-empty list of the records that do. *)
Theorem filterJobs_NotFound (toLowerCase : string -> string)
    (data : list job) (o : Options.t) :
  (forall e, filterJobs toLowerCase data o = Throw e ->
             e = NotFoundError "No jobs match the desired criteria")
  /\ (forall results, filterJobs toLowerCase data o = Ok results ->
                      results <> [])
  /\ (toLowerCase EmptyString = EmptyString ->
      job_records data ->
      (filterJobs toLowerCase data o
       = Throw (NotFoundError "No jobs match the desired criteria")
       <-> forall j, In j data -> ~ passes_supplied toLowerCase o j)
      /\ ((exists j, In j data /\ passes_supplied toLowerCase o j) ->
          exists results,
            filterJobs toLowerCase data o = Ok results
            /\ results <> []
            /\ forall j, In j results
                         <-> In j data /\ passes_supplied toLowerCase o j)).
Proof.
  rewrite filterJobs_results.
  pose proof (filter_nil_iff (passesb toLowerCase o) data) as Hnil.
  destruct (List.filter (passesb toLowerCase o) data) as [|x l] eqn:E; simpl.
  - split; [congruence|]. split; [discriminate|].
    intros Hlow Hrec.
    pose proof (fun j => passesb_supplied _ Hlow data o j Hrec) as Hsup.
    split.
    + split; [|reflexivity]. intros _ j Hj Hp.
      apply (Hsup j Hj) in Hp. rewrite (proj1 Hnil eq_refl j Hj) in Hp.
      discriminate.
    + intros (j & Hj & Hp). exfalso.
      apply (Hsup j Hj) in Hp. rewrite (proj1 Hnil eq_refl j Hj) in Hp.
      discriminate.
  - split; [discriminate|]. split; [congruence|].
    intros Hlow Hrec.
    pose proof (fun j => passesb_supplied _ Hlow data o j Hrec) as Hsup.
    assert (Hin : forall j, In j (x :: l)
                            <-> In j data /\ passes_supplied toLowerCase o j).
    { intros j. rewrite <- E, List.filter_In. split.
      - intros [Hj Hp]. split; [exact Hj|]. apply Hsup; assumption.
      - intros [Hj Hp]. split; [exact Hj|]. apply Hsup; assumption. }
    split.
    + split; [discriminate|]. intros H. exfalso.
      destruct (proj1 (Hin x) (or_introl eq_refl)) as [Hx Hp].
      exact (H x Hx Hp).
    + intros _. exists (x :: l).
      split; [reflexivity|]. split; [discriminate|exact Hin].
Qed.

Lemma filterJobs_NotFound_witness :
  filterJobs toLowerCase_ascii [j1; j2; j3]
    {| Options.title := None; Options.minSalary := Some 200000%Z;
       Options.hasEquity := None |}
  = Throw (NotFoundError "No jobs match the desired criteria").
Proof.
  destruct (filterJobs_NotFound toLowerCase_ascii [j1; j2; j3]
              {| Options.title := None; Options.minSalary := Some 200000%Z;
                 Options.hasEquity := None |})
    as (_ & _ & Hiff).
  apply (proj1 (Hiff eq_refl job_records_fixtures)).
  intros j Hj (_ & Hm & _).
  specialize (Hm 200000%Z eq_refl).
  simpl in Hj. destruct Hj as [<-|[<-|[<-|[]]]]; simpl in Hm; lia.
Defined.

(** C10: the options act by truthiness. A [minSalary] of 0 gives the
    result of the same options without [minSalary]; an empty [title] gives
    the result of the same options without [title]; and on a non-empty
    collection the options [{ minSalary: 0 }] return the whole collection
    unchanged. *)
Theorem filterJobs_truthiness (toLowerCase : string -> string)
    (data : list job) (o : Options.t) :
  (Options.minSalary o = Some 0%Z ->
   filterJobs toLowerCase data o
   = filterJobs toLowerCase data
       {| Options.title := Options.title o;
          Options.minSalary := None;
          Options.hasEquity := Options.hasEquity o |})
  /\ (Options.title o = Some EmptyString ->
      filterJobs toLowerCase data o
      = filterJobs toLowerCase data
          {| Options.title := None;
             Options.minSalary := Options.minSalary o;
             Options.hasEquity := Options.hasEquity o |})
  /\ (data <> [] ->
      filterJobs toLowerCase data
        {| Options.title := None;
           Options.minSalary := Some 0%Z;
           Options.hasEquity := None |}
      = Ok data).
Proof.
  split; [|split].
  - intros H. unfold filterJobs. rewrite H. reflexivity.
  - intros H. unfold filterJobs. rewrite H. reflexivity.
  - intros H. unfold filterJobs. simpl.
    destruct data; [congruence|reflexivity].
Qed.

Lemma filterJobs_truthiness_witness :
  filterJobs toLowerCase_ascii [j1; j2; j3]
    {| Options.title := None; Options.minSalary := Some 0%Z;
       Options.hasEquity := None |}
  = Ok [j1; j2; j3]
  /\ filterJobs toLowerCase_ascii [j1; j2; j3]
       {| Options.title := Some EmptyString; Options.minSalary := Some 0%Z;
          Options.hasEquity := Some true |}
     = filterJobs toLowerCase_ascii [j1; j2; j3]
         {| Options.title := None; Options.minSalary := None;
            Options.hasEquity := Some true |}.
Proof.
  split.
  - apply (proj2 (proj2 (filterJobs_truthiness toLowerCase_ascii [j1; j2; j3]
      {| Options.title := None; Options.minSalary := None;
         Options.hasEquity := None |}))).
    discriminate.
  - rewrite (proj1 (filterJobs_truthiness toLowerCase_ascii [j1; j2; j3]
      {| Options.title := Some EmptyString; Options.minSalary := Some 0%Z;
         Options.hasEquity := Some true |}) eq_refl).
    apply (proj1 (proj2 (filterJobs_truthiness toLowerCase_ascii [j1; j2; j3]
      {| Options.title := Some EmptyString; Options.minSalary := None;
         Options.hasEquity := Some true |})) eq_refl).
Defined.

(** ** The queries of the job model *)

Section JobQueriesFacts.

Implicit Types (db : Db.database) (log : list Db.call) (id : value)
               (data : list (string * value)).

Lemma update_column_map (k : string) :
  column {[ "companyHandle" := "company_handle" ]} k
  = JobQueries.update_column k.
Proof.
  unfold column, JobQueries.update_column.
  destruct (String.eqb_spec k "companyHandle") as [->|Hne].
  - reflexivity.
  - rewrite lookup_singleton_ne by congruence. reflexivity.
Qed.

Lemma update_nonempty id data db log :
  data <> [] ->
  JobQueries.update id data db log
  = match db log (JobQueries.update_call id data) with
    | Db.Rows rows =>
        (if truthy (Db.first rows) then Db.Fulfilled (Db.first rows)
         else Db.Threw (NotFoundError "No job"),
         (log ++ [JobQueries.update_call id data])%list)
    | Db.Refused reason =>
        (Db.DriverError reason, (log ++ [JobQueries.update_call id data])%list)
    end.
Proof.
  intros Hne. unfold JobQueries.update.
  rewrite (sqlForPartialUpdate_nonempty data _ Hne).
  unfold Db.bind, Db.lift, Db.ret, Db.query, Db.throw. cbn [setCols values].
  replace (length (Object_values data) + 1)%nat with (S (length data))
    by (unfold Object_values; rewrite length_map; lia).
  replace (imap (fun i k => fragment (column _ k) (S i)) (Object_keys data))
    with (imap (fun i k => fragment (JobQueries.update_column k) (S i))
               (Object_keys data))
    by (apply imap_ext; intros; rewrite update_column_map; reflexivity).
  fold (JobQueries.update_call id data).
  destruct (db log (JobQueries.update_call id data)) as [rows|reason];
    [|reflexivity].
  destruct (truthy (Db.first rows)); reflexivity.
Qed.

End JobQueriesFacts.

Lemma issued_one {A} (m : Db.t A) (db : Db.database) (log : list Db.call)
    (r : Db.settled A) (c : Db.call) :
  m db log = (r, (log ++ [c])%list) -> JobQueries.issued m db log = [c].
Proof.
  intros E. unfold JobQueries.issued. rewrite E. cbn [snd].
  rewrite drop_app_length. reflexivity.
Qed.

Lemma update_issued (id : value) (data : list (string * value))
    (db : Db.database) (log : list Db.call) :
  data <> [] ->
  JobQueries.issued (JobQueries.update id data) db log
  = [JobQueries.update_call id data].
Proof.
  intros Hne. pose proof (update_nonempty id data db log Hne) as E.
  destruct (db log (JobQueries.update_call id data));
    eapply issued_one; exact E.
Qed.

(** X1: [Job.update] with no field to change never reaches the database:
    it is rejected with BadRequest("No data") and the log of calls is left
    as it was, whatever the id. *)
Theorem update_no_data (id : value) (db : Db.database) (log : list Db.call) :
  JobQueries.update id [] db log = (Db.Threw (BadRequestError "No data"), log).
Proof. reflexivity. Qed.

(** X2: for a non-empty [data], [Job.update] makes exactly one call. Its
    text is the UPDATE statement around the comma-joined fragments, the
    [i]-th of which binds the column of the [i]-th field to [$(i+1)]
    ([companyHandle] is written to [company_handle]; a field named like a
    property that the column map inherits, such as [toString], to the text
    of that property; every other field to the column of its own name),
    with [$(n+1)] in the WHERE clause for [n] fields. Its arguments are the [n] values in the order of the fields,
    followed by the id: each placeholder numbers the argument it stands
    for. *)
Theorem update_sends (id : value) (data : list (string * value))
    (db : Db.database) (log : list Db.call) :
  data <> [] ->
  exists cols params,
    JobQueries.issued (JobQueries.update id data) db log
    = [ {| Db.sql := JobQueries.update_sql
                       (join ", " cols) ("$" ++ pretty (S (length data)));
           Db.args := params |} ]
    /\ length cols = length data
    /\ length params = S (length data)
    /\ (forall i k v,
          data !! i = Some (k, v) ->
          cols !! i = Some (fragment (JobQueries.update_column k) (S i))
          /\ params !! i = Some v)
    /\ params !! length data = Some id.
Proof.
  intros Hne.
  exists (imap (fun i k => fragment (JobQueries.update_column k) (S i))
               (Object_keys data)), (Object_values data ++ [id])%list.
  split; [apply update_issued, Hne|].
  unfold Object_keys, Object_values.
  rewrite length_imap, length_app, !length_map. cbn [length].
  split; [reflexivity|]. split; [lia|]. split.
  - intros i k v Hi. split.
    + rewrite list_lookup_imap.
      erewrite Object_keys_lookup by eassumption. reflexivity.
    + apply lookup_app_l_Some. eapply Object_values_lookup; eassumption.
  - rewrite lookup_app_r by (rewrite length_map; lia).
    rewrite length_map, Nat.sub_diag. reflexivity.
Qed.

Lemma update_sends_witness :
  exists cols params,
    JobQueries.issued
      (JobQueries.update (VNum 7)
         [("title", VStr "J1"); ("companyHandle", VStr "c2")])
      (fun _ _ => Db.Rows []) []
    = [ {| Db.sql := JobQueries.update_sql (join ", " cols) "$3";
           Db.args := params |} ]
    /\ cols !! 1%nat = Some (fragment "company_handle" 2)
    /\ params = [VStr "J1"; VStr "c2"; VNum 7].
Proof.
  destruct (update_sends (VNum 7)
              [("title", VStr "J1"); ("companyHandle", VStr "c2")]
              (fun _ _ => Db.Rows []) [])
    as (cols & params & Hcall & _ & Hlen & Hat & Hid); [discriminate|].
  exists cols, params. split; [exact Hcall|]. split.
  - apply (Hat 1%nat "companyHandle" (VStr "c2")). reflexivity.
  - destruct (Hat 0%nat "title" (VStr "J1") eq_refl) as [_ H0].
    destruct (Hat 1%nat "companyHandle" (VStr "c2") eq_refl) as [_ H1].
    destruct params as [|a [|b [|c [|d rest]]]]; try discriminate.
    cbn in H0, H1, Hid. congruence.
Defined.

(** X3: the text of the UPDATE statement depends on the names of the
    fields only. Two calls of [Job.update] whose [data] have the same keys
    in the same order send the same SQL text, whatever the values, the id,
    the database and the log are; values and id travel in the arguments. *)
Theorem update_text_ignores_values
    (id id' : value) (data data' : list (string * value))
    (db db' : Db.database) (log log' : list Db.call) :
  data <> [] ->
  Object_keys data = Object_keys data' ->
  map Db.sql (JobQueries.issued (JobQueries.update id data) db log)
  = map Db.sql (JobQueries.issued (JobQueries.update id' data') db' log').
Proof.
  intros Hne Hkeys.
  assert (Hne' : data' <> []).
  { intros ->. destruct data; [congruence|discriminate]. }
  rewrite !update_issued by assumption.
  unfold JobQueries.update_call. cbn [map Db.sql]. rewrite Hkeys.
  replace (length data') with (length data); [reflexivity|].
  rewrite <- (length_map fst data), <- (length_map fst data').
  unfold Object_keys in Hkeys. rewrite Hkeys. reflexivity.
Qed.

Lemma update_text_ignores_values_witness :
  map Db.sql
    (JobQueries.issued
       (JobQueries.update (VNum 1) [("title", VStr "J1")])
       (fun _ _ => Db.Rows []) [])
  = map Db.sql
      (JobQueries.issued
         (JobQueries.update (VStr "1; DROP TABLE jobs")
            [("title", VStr "x' WHERE true --")])
         (fun _ _ => Db.Refused "syntax") []).
Proof.
  apply update_text_ignores_values; [discriminate|reflexivity].
Defined.

(** X4: [Job.get] and [Job.remove] send the id as the only argument of
    one call. Each fails with NotFound("No job") exactly when the database
    answers without a first row, is rejected exactly when the driver
    refuses the call, and otherwise is fulfilled: [get] with the first
    row, [remove] with [{ msg: "job deleted" }] whatever the row is. *)
Theorem get_remove_settle (id : value) (db : Db.database) (log : list Db.call) :
  let g := {| Db.sql := JobQueries.get_sql; Db.args := [id] |} in
  let r := {| Db.sql := JobQueries.remove_sql; Db.args := [id] |} in
  JobQueries.issued (JobQueries.get id) db log = [g]
  /\ JobQueries.issued (JobQueries.remove id) db log = [r]
  /\ (fst (JobQueries.get id db log) = Db.Threw (NotFoundError "No job")
      <-> exists rows, db log g = Db.Rows rows /\ truthy (Db.first rows) = false)
  /\ (fst (JobQueries.remove id db log) = Db.Threw (NotFoundError "No job")
      <-> exists rows, db log r = Db.Rows rows /\ truthy (Db.first rows) = false)
  /\ (forall rows, db log g = Db.Rows rows -> truthy (Db.first rows) = true ->
      fst (JobQueries.get id db log) = Db.Fulfilled (Db.first rows))
  /\ (forall rows, db log r = Db.Rows rows -> truthy (Db.first rows) = true ->
      fst (JobQueries.remove id db log)
      = Db.Fulfilled (VObj [("msg", VStr "job deleted")]))
  /\ (forall reason, db log g = Db.Refused reason ->
      fst (JobQueries.get id db log) = Db.DriverError reason)
  /\ (forall reason, db log r = Db.Refused reason ->
      fst (JobQueries.remove id db log) = Db.DriverError reason).
Proof.
  intros g r.
  assert (Eg : JobQueries.get id db log
               = match db log g with
                 | Db.Rows rows =>
                     (if truthy (Db.first rows) then Db.Fulfilled (Db.first rows)
                      else Db.Threw (NotFoundError "No job"), (log ++ [g])%list)
                 | Db.Refused reason => (Db.DriverError reason, (log ++ [g])%list)
                 end).
  { unfold JobQueries.get, Db.bind, Db.query. fold g.
    destruct (db log g) as [rows|]; [|reflexivity].
    destruct (truthy (Db.first rows)); reflexivity. }
  assert (Er : JobQueries.remove id db log
               = match db log r with
                 | Db.Rows rows =>
                     (if truthy (Db.first rows)
                      then Db.Fulfilled (VObj [("msg", VStr "job deleted")])
                      else Db.Threw (NotFoundError "No job"), (log ++ [r])%list)
                 | Db.Refused reason => (Db.DriverError reason, (log ++ [r])%list)
                 end).
  { unfold JobQueries.remove, Db.bind, Db.query. fold r.
    destruct (db log r) as [rows|]; [|reflexivity].
    destruct (truthy (Db.first rows)); reflexivity. }
  split; [destruct (db log g); eapply issued_one; exact Eg|].
  split; [destruct (db log r); eapply issued_one; exact Er|].
  rewrite Eg, Er. repeat split.
  - destruct (db log g) as [rows|]; [|discriminate].
    destruct (truthy (Db.first rows)) eqn:T; [discriminate|eauto].
  - intros (rows & -> & ->). reflexivity.
  - destruct (db log r) as [rows|]; [|discriminate].
    destruct (truthy (Db.first rows)) eqn:T; [discriminate|eauto].
  - intros (rows & -> & ->). reflexivity.
  - intros rows -> ->. reflexivity.
  - intros rows -> ->. reflexivity.
  - intros reason ->. reflexivity.
  - intros reason ->. reflexivity.
Qed.

Lemma get_remove_settle_witness :
  fst (JobQueries.get (VNum (-1)) (fun _ _ => Db.Rows []) [])
  = Db.Threw (NotFoundError "No job")
  /\ fst (JobQueries.remove (VNum 3)
            (fun _ _ => Db.Rows [VObj [("title", VStr "j3")]]) [])
     = Db.Fulfilled (VObj [("msg", VStr "job deleted")]).
Proof.
  split.
  - apply (proj1 (proj2 (proj2 (get_remove_settle (VNum (-1))
                                  (fun _ _ => Db.Rows []) [])))).
    exists []. split; reflexivity.
  - apply (proj1 (proj2 (proj2 (proj2 (proj2 (proj2
             (get_remove_settle (VNum 3)
                (fun _ _ => Db.Rows [VObj [("title", VStr "j3")]]) []))))))
             [VObj [("title", VStr "j3")]]); reflexivity.
Defined.

Lemma create_readable (data : value) (db : Db.database) (log : list Db.call) :
  nullish data = false ->
  JobQueries.create data db log
  = match db log (JobQueries.check_call data) with
    | Db.Refused reason =>
        (Db.DriverError reason, (log ++ [JobQueries.check_call data])%list)
    | Db.Rows company =>
        if truthy (Db.first company) then
          match db (log ++ [JobQueries.check_call data])%list
                   (JobQueries.insert_call data) with
          | Db.Rows rows =>
              (Db.Fulfilled (Db.first rows),
               (log ++ [JobQueries.check_call data; JobQueries.insert_call data])%list)
          | Db.Refused reason =>
              (Db.DriverError reason,
               (log ++ [JobQueries.check_call data; JobQueries.insert_call data])%list)
          end
        else
          (Db.Threw (BadRequestError
                       ("Company not found: "
                        ++ toString (field data "companyHandle"))),
           (log ++ [JobQueries.check_call data])%list)
    end.
Proof.
  intros Hn. unfold JobQueries.create, JobQueries.check_call,
    JobQueries.insert_call, field.
  destruct data; try discriminate; cbn -[JobQueries.company_check_sql
    JobQueries.insert_sql toString];
    unfold Db.bind, Db.query, Db.ret, Db.throw;
    match goal with |- context [db log ?c] => destruct (db log c) as [company|] end;
    try reflexivity;
    (destruct (truthy (Db.first company)); cbn [negb]; [|reflexivity]);
    rewrite <- app_assoc; cbn [app];
    match goal with |- context [db ?l ?c] =>
      match l with (_ ++ _)%list => destruct (db l c) end end; reflexivity.
Qed.

(** X5: [Job.create] checks the company before it writes. When the
    database knows no company of the given handle, the job is refused with
    BadRequest("Company not found: <handle>") and the company check is the
    only call made: the INSERT is never sent. *)
Theorem create_unknown_company
    (data : value) (db : Db.database) (log : list Db.call) (company : list value) :
  nullish data = false ->
  db log (JobQueries.check_call data) = Db.Rows company ->
  truthy (Db.first company) = false ->
  fst (JobQueries.create data db log)
  = Db.Threw (BadRequestError
                ("Company not found: " ++ toString (field data "companyHandle")))
  /\ JobQueries.issued (JobQueries.create data) db log
     = [ {| Db.sql := JobQueries.company_check_sql;
            Db.args := [field data "companyHandle"] |} ].
Proof.
  intros Hn Hdb Hc.
  pose proof (create_readable data db log Hn) as E.
  rewrite Hdb, Hc in E. split.
  - rewrite E. reflexivity.
  - eapply issued_one. exact E.
Qed.

Lemma create_unknown_company_witness :
  fst (JobQueries.create
         (VObj [("title", VStr "new"); ("salary", VNum 50000);
                ("equity", VNum 0); ("companyHandle", VStr "notahandle")])
         (fun _ _ => Db.Rows []) [])
  = Db.Threw (BadRequestError "Company not found: notahandle").
Proof.
  apply (proj1 (create_unknown_company
                  (VObj [("title", VStr "new"); ("salary", VNum 50000);
                         ("equity", VNum 0); ("companyHandle", VStr "notahandle")])
                  (fun _ _ => Db.Rows []) [] [] eq_refl eq_refl eq_refl)).
Defined.



(** ** More on the job filter *)

Section FilterJobsMore.

Variable toLowerCase : string -> string.

Implicit Types (data : list job) (o : Options.t).

Lemma filterJobs_match data o :
  filterJobs toLowerCase data o
  = match List.filter (passesb toLowerCase o) data with
    | [] => Throw not_found
    | _ :: _ => Ok (List.filter (passesb toLowerCase o) data)
    end.
Proof.
  rewrite filterJobs_results.
  destruct (List.filter (passesb toLowerCase o) data); reflexivity.
Qed.

Lemma filterJobs_Ok data o rs :
  filterJobs toLowerCase data o = Ok rs
  <-> rs = List.filter (passesb toLowerCase o) data /\ rs <> [].
Proof.
  rewrite filterJobs_match.
  destruct (List.filter (passesb toLowerCase o) data) as [|x l].
  - split; [discriminate|]. intros [-> H]. congruence.
  - split; [intros [= <-]; split; [reflexivity|discriminate]|].
    intros [-> _]. reflexivity.
Qed.

Lemma filter_same {A} (f : A -> bool) (l : list A) :
  List.filter f (List.filter f l) = List.filter f l.
Proof.
  rewrite filter_twice. apply List.filter_ext. intros x. destruct (f x); reflexivity.
Qed.

Lemma filter_sublist {A} (f : A -> bool) (l : list A) :
  sublist (List.filter f l) l.
Proof.
  induction l as [|x l IH]; simpl; [constructor|].
  destruct (f x); [apply sublist_skip|apply sublist_cons]; exact IH.
Qed.

Lemma filter_sublist_weaker {A} (f g : A -> bool) (l : list A) :
  (forall x, f x = true -> g x = true) ->
  sublist (List.filter f l) (List.filter g l).
Proof.
  intros Himp. induction l as [|x l IH]; simpl; [constructor|].
  destruct (f x) eqn:Ef.
  - rewrite (Himp x Ef). apply sublist_skip, IH.
  - destruct (g x); [apply sublist_cons|]; exact IH.
Qed.

(** Filtering by [o1] and then, when something is left, by [o2]. *)
Lemma filterJobs_then data o1 o2 :
  (let* rs := filterJobs toLowerCase data o1 in filterJobs toLowerCase rs o2)
  = match List.filter (fun j => passesb toLowerCase o1 j
                                && passesb toLowerCase o2 j) data with
    | [] => Throw not_found
    | _ :: _ => Ok (List.filter (fun j => passesb toLowerCase o1 j
                                          && passesb toLowerCase o2 j) data)
    end.
Proof.
  rewrite (filterJobs_match data o1).
  rewrite <- (filter_twice (passesb toLowerCase o1) (passesb toLowerCase o2) data).
  destruct (List.filter (passesb toLowerCase o1) data) as [|x l] eqn:E;
    [reflexivity|].
  cbn [bind]. apply filterJobs_match.
Qed.

Lemma includes_empty (s : string) : includes s EmptyString = true.
Proof. rewrite includes_unfold. destruct s; reflexivity. Qed.

End FilterJobsMore.

(** X7: what [filterJobs] returns is never empty and never holds
    anything new: the result is a sublist of the collection (its records,
    in their order, none repeated or added), is not empty, and every
    record of it passes the predicates of the options. *)
Theorem filterJobs_returns_sublist (toLowerCase : string -> string)
    (data : list job) (o : Options.t) (rs : list job) :
  filterJobs toLowerCase data o = Ok rs ->
  rs <> [] /\ sublist rs data /\ (length rs <= length data)%nat
  /\ forall j, In j rs -> passes toLowerCase o j.
Proof.
  intros [-> Hne]%filterJobs_Ok.
  split; [exact Hne|]. split; [apply filter_sublist|].
  split; [apply sublist_length, filter_sublist|].
  intros j [_ Hj]%List.filter_In. apply passesb_spec, Hj.
Qed.

Lemma filterJobs_returns_sublist_witness :
  sublist [j1; j2] [j1; j2; j3] /\ passes toLowerCase_ascii
    {| Options.title := None; Options.minSalary := None;
       Options.hasEquity := Some true |} j2.
Proof.
  destruct (filterJobs_returns_sublist toLowerCase_ascii [j1; j2; j3]
              {| Options.title := None; Options.minSalary := None;
                 Options.hasEquity := Some true |} [j1; j2])
    as (_ & Hsub & _ & Hpass); [vm_compute; reflexivity|].
  split; [exact Hsub|]. apply Hpass. right. left. reflexivity.
Defined.

(** X8: filtering is idempotent. Filtering the result of [filterJobs]
    again with the same options returns that result unchanged, without
    NotFound. *)
Theorem filterJobs_idempotent (toLowerCase : string -> string)
    (data : list job) (o : Options.t) (rs : list job) :
  filterJobs toLowerCase data o = Ok rs -> filterJobs toLowerCase rs o = Ok rs.
Proof.
  intros [-> Hne]%filterJobs_Ok. apply filterJobs_Ok.
  rewrite filter_same. auto.
Qed.

Lemma filterJobs_idempotent_witness :
  filterJobs toLowerCase_ascii [j2; j3]
    {| Options.title := None; Options.minSalary := Some 100000%Z;
       Options.hasEquity := None |}
  = Ok [j2; j3].
Proof.
  apply (filterJobs_idempotent toLowerCase_ascii [j1; j2; j3]).
  vm_compute. reflexivity.
Defined.

(** X9: an option can only narrow. When every option of [o] is absent
    or is the same in [o'], whatever [filterJobs] returns under [o'] is a
    sublist of what it returns under [o], and [o] does not end in NotFound
    when [o'] does not. *)
Theorem filterJobs_narrows (toLowerCase : string -> string)
    (data : list job) (o o' : Options.t) (rs' : list job) :
  (Options.title o = None \/ Options.title o = Options.title o') ->
  (Options.minSalary o = None \/ Options.minSalary o = Options.minSalary o') ->
  (Options.hasEquity o = None \/ Options.hasEquity o = Options.hasEquity o') ->
  filterJobs toLowerCase data o' = Ok rs' ->
  exists rs, filterJobs toLowerCase data o = Ok rs /\ sublist rs' rs.
Proof.
  intros Ht Hm He [-> Hne]%filterJobs_Ok.
  assert (Hsub : sublist (List.filter (passesb toLowerCase o') data)
                         (List.filter (passesb toLowerCase o) data)).
  { apply filter_sublist_weaker. intros j. unfold passesb.
    rewrite !andb_true_iff. intros [[H1 H2] H3].
    destruct Ht as [-> | ->], Hm as [-> | ->], He as [-> | ->]; auto. }
  exists (List.filter (passesb toLowerCase o) data). split; [|exact Hsub].
  apply filterJobs_Ok. split; [reflexivity|].
  intros E. rewrite E in Hsub. apply sublist_nil_r in Hsub. contradiction.
Qed.

Lemma filterJobs_narrows_witness :
  exists rs,
    filterJobs toLowerCase_ascii [j1; j2; j3]
      {| Options.title := Some "j"; Options.minSalary := None;
         Options.hasEquity := None |} = Ok rs
    /\ sublist [j2] rs.
Proof.
  apply (filterJobs_narrows toLowerCase_ascii [j1; j2; j3] _
           {| Options.title := Some "j"; Options.minSalary := Some 100000%Z;
              Options.hasEquity := Some true |}).
  - right. reflexivity.
  - left. reflexivity.
  - left. reflexivity.
  - vm_compute. reflexivity.
Defined.

(** X10: the predicates are applied independently and in no particular
    order. Filtering by [o1] and then by [o2] gives what filtering by [o2]
    and then by [o1] gives, NotFound included; and [filterJobs] with all
    its options gives what filtering by the title alone, then by the
    minimum salary alone, then by the equity flag alone gives. *)
Theorem filterJobs_compose (toLowerCase : string -> string)
    (data : list job) (o o1 o2 : Options.t) :
  (let* rs := filterJobs toLowerCase data o1 in filterJobs toLowerCase rs o2)
  = (let* rs := filterJobs toLowerCase data o2 in filterJobs toLowerCase rs o1)
  /\ filterJobs toLowerCase data o
     = (let* rs1 := filterJobs toLowerCase data (only_title o) in
        let* rs2 := filterJobs toLowerCase rs1 (only_minSalary o) in
        filterJobs toLowerCase rs2 (only_hasEquity o)).
Proof.
  split.
  - rewrite !filterJobs_then.
    replace (List.filter (fun j => passesb toLowerCase o2 j
                                   && passesb toLowerCase o1 j) data)
      with (List.filter (fun j => passesb toLowerCase o1 j
                                  && passesb toLowerCase o2 j) data)
      by (apply List.filter_ext; intros j; apply andb_comm).
    reflexivity.
  - rewrite (filterJobs_match toLowerCase data (only_title o)).
    destruct (List.filter (passesb toLowerCase (only_title o)) data)
      as [|x l] eqn:E1.
    + rewrite filterJobs_match.
      replace (List.filter (passesb toLowerCase o) data) with (@nil job);
        [reflexivity|].
      symmetry. apply filter_nil_iff. intros j Hj.
      pose proof (proj1 (filter_nil_iff _ _) E1 j Hj) as H.
      unfold passesb, only_title in *. cbn in H.
      rewrite !andb_true_r in H. rewrite H. reflexivity.
    + cbn [bind]. rewrite <- E1. rewrite filterJobs_then.
      rewrite <- filter_twice, filter_twice, filter_twice.
      rewrite (filterJobs_match toLowerCase data o).
      replace (List.filter (passesb toLowerCase o) data)
        with (List.filter
                (fun x0 => passesb toLowerCase (only_title o) x0
                           && (passesb toLowerCase (only_minSalary o) x0
                               && passesb toLowerCase (only_hasEquity o) x0))
                data);
        [reflexivity|].
      apply List.filter_ext. intros j. unfold passesb. cbn.
      rewrite !andb_true_r, andb_assoc. reflexivity.
Qed.

(** X11: the title option is matched without regard to its letter case.
    Two option strings with the same lower-case form give the same result
    on every collection, NotFound included. [toLowerCase] is the built-in
    of the language, of which only [toLowerCase "" = ""] is used. *)
Theorem filterJobs_title_case (toLowerCase : string -> string)
    (data : list job) (o : Options.t) (t t' : string) :
  toLowerCase EmptyString = EmptyString ->
  Options.title o = Some t ->
  toLowerCase t = toLowerCase t' ->
  filterJobs toLowerCase data o
  = filterJobs toLowerCase data
      {| Options.title := Some t';
         Options.minSalary := Options.minSalary o;
         Options.hasEquity := Options.hasEquity o |}.
Proof.
  intros Hempty Ht Hlow. rewrite !filterJobs_results.
  set (o' := {| Options.title := Some t';
                Options.minSalary := Options.minSalary o;
                Options.hasEquity := Options.hasEquity o |}).
  assert (E : List.filter (passesb toLowerCase o') data
              = List.filter (passesb toLowerCase o) data);
    [|rewrite E; reflexivity].
  apply List.filter_ext. intros j. unfold passesb, o'.
  cbn [Options.title Options.minSalary Options.hasEquity].
  rewrite Ht, <- Hlow. do 2 f_equal.
  destruct (String.eqb_spec t EmptyString) as [->|Hne],
           (String.eqb_spec t' EmptyString) as [->|Hne']; try reflexivity.
  - rewrite Hempty, includes_empty. reflexivity.
  - rewrite Hlow, Hempty, includes_empty. reflexivity.
Qed.

Lemma filterJobs_title_case_witness :
  filterJobs toLowerCase_ascii [j1; j2; j3]
    {| Options.title := Some "J1"; Options.minSalary := None;
       Options.hasEquity := None |}
  = filterJobs toLowerCase_ascii [j1; j2; j3]
      {| Options.title := Some "j1"; Options.minSalary := None;
         Options.hasEquity := None |}.
Proof.
  apply (filterJobs_title_case toLowerCase_ascii [j1; j2; j3]
           {| Options.title := Some "J1"; Options.minSalary := None;
              Options.hasEquity := None |} "J1" "j1"); reflexivity.
Defined.

(** ** More on the partial-update builder *)

Section SqlMore.

Local Arguments String.append !_ _ / : simpl nomatch.

Lemma append_assoc (a b c : string) : (a ++ b) ++ c = a ++ (b ++ c).
Proof. induction a as [|x a IH]; simpl; congruence. Qed.

Lemma join_snoc (sep x : string) (l : list string) :
  l <> [] -> join sep (l ++ [x])%list = join sep l ++ sep ++ x.
Proof.
  induction l as [|y l IH]; [congruence|]. intros _.
  destruct l as [|z l].
  - reflexivity.
  - change (join sep ((y :: z :: l) ++ [x])%list)
      with (y ++ sep ++ join sep ((z :: l) ++ [x])%list).
    rewrite IH by discriminate.
    change (join sep (y :: z :: l)) with (y ++ sep ++ join sep (z :: l)).
    rewrite !append_assoc. reflexivity.
Qed.

End SqlMore.

(** X12: a column-map entry matters only for a field that is being
    updated. Two column maps that agree on the keys of [dataToUpdate] give
    the same result, error included. *)
Theorem sqlForPartialUpdate_local
    (dataToUpdate : list (string * value)) (jsToSql jsToSql' : gmap string string) :
  (forall k, In k (Object_keys dataToUpdate) -> jsToSql !! k = jsToSql' !! k) ->
  sqlForPartialUpdate dataToUpdate jsToSql
  = sqlForPartialUpdate dataToUpdate jsToSql'.
Proof.
  intros Hagree. destruct dataToUpdate as [|kv rest] eqn:E; [reflexivity|].
  rewrite <- E in *.
  rewrite !sqlForPartialUpdate_nonempty by (rewrite E; discriminate).
  do 2 f_equal. f_equal. apply imap_ext. intros i k Hk.
  unfold column. rewrite Hagree; [reflexivity|].
  apply list_elem_of_In. eapply list_elem_of_lookup_2. exact Hk.
Qed.

Lemma sqlForPartialUpdate_local_witness :
  sqlForPartialUpdate [("title", VStr "J1")]
    {[ "companyHandle" := "company_handle" ]}
  = sqlForPartialUpdate [("title", VStr "J1")] ∅.
Proof.
  apply sqlForPartialUpdate_local.
  intros k [<-|[]]. reflexivity.
Defined.

(** X13: a result of [sqlForPartialUpdate] is never an empty SET clause:
    [setCols] begins with the opening quote of the first column, and
    [values] has as many elements as there are fields, at least one. *)
Theorem sqlForPartialUpdate_never_empty
    (dataToUpdate : list (string * value)) (jsToSql : gmap string string)
    (u : update) :
  sqlForPartialUpdate dataToUpdate jsToSql = Ok u ->
  (exists rest, setCols u = dquote ++ rest)
  /\ setCols u <> EmptyString
  /\ length (values u) = length dataToUpdate
  /\ (0 < length (values u))%nat.
Proof.
  intros Hu. destruct dataToUpdate as [|[k v] rest] eqn:E; [discriminate|].
  rewrite <- E in *.
  rewrite sqlForPartialUpdate_nonempty in Hu by (rewrite E; discriminate).
  injection Hu as <-. cbn [setCols values].
  assert (Hq : exists r, join ", " (imap (fun i k => fragment (column jsToSql k) (S i))
                                         (Object_keys dataToUpdate))
                         = dquote ++ r).
  { rewrite E. cbn [Object_keys map fst imap].
    destruct (imap _ (map fst rest)); cbn [join]; unfold fragment; eauto. }
  split; [exact Hq|]. split.
  - destruct Hq as [r ->]. discriminate.
  - unfold Object_values. rewrite length_map, E. cbn. split; [reflexivity|lia].
Qed.

Lemma sqlForPartialUpdate_never_empty_witness :
  exists u, sqlForPartialUpdate [("salary", VNull)] ∅ = Ok u
            /\ setCols u <> EmptyString.
Proof.
  eexists. split; [reflexivity|].
  apply (proj1 (proj2 (sqlForPartialUpdate_never_empty [("salary", VNull)] ∅ _
                         eq_refl))).
Defined.

(** X14: a field that comes last leaves what comes before it untouched.
    [dataToUpdate] lists the fields in the order of [Object.keys] (integer
    keys first, then the others as they were added). For a non-empty
    [dataToUpdate] of [n] fields, one more field after them in that order
    appends [", "] and its fragment with placeholder [$(n+1)] to [setCols],
    and its value to [values]; the earlier fragments keep their
    placeholders. The column of the fragment is [column]: the entry of the
    map, the text of an inherited property, or the field name. *)
Theorem sqlForPartialUpdate_snoc
    (dataToUpdate : list (string * value)) (jsToSql : gmap string string)
    (u : update) (k : string) (v : value) :
  sqlForPartialUpdate dataToUpdate jsToSql = Ok u ->
  sqlForPartialUpdate (dataToUpdate ++ [(k, v)])%list jsToSql
  = Ok {| setCols := setCols u ++ ", "
                     ++ fragment (column jsToSql k) (S (length dataToUpdate));
          values := (values u ++ [v])%list |}.
Proof.
  intros Hu.
  assert (Hne : dataToUpdate <> []) by (intros ->; discriminate).
  rewrite sqlForPartialUpdate_nonempty in Hu by exact Hne.
  injection Hu as <-. cbn [setCols values].
  rewrite sqlForPartialUpdate_nonempty by (destruct dataToUpdate; discriminate).
  unfold Object_keys, Object_values. rewrite !map_app. cbn [map fst snd].
  rewrite imap_app. cbn [imap]. rewrite length_map, Nat.add_0_r.
  rewrite join_snoc; [reflexivity|].
  destruct dataToUpdate; [congruence|discriminate].
Qed.

Lemma sqlForPartialUpdate_snoc_witness :
  sqlForPartialUpdate [("title", VStr "J1"); ("salary", VNum 10)] ∅
  = Ok {| setCols := fragment "title" 1 ++ ", " ++ fragment "salary" 2;
          values := [VStr "J1"; VNum 10] |}.
Proof.
  exact (sqlForPartialUpdate_snoc [("title", VStr "J1")] ∅
           {| setCols := fragment "title" 1; values := [VStr "J1"] |}
           "salary" (VNum 10) eq_refl).
Defined.

(** ** More on the gates and the credential verifier *)

Section GateMore.

Implicit Types (req : request) (res : response).

Lemma field_truthy (v : value) (k : string) :
  truthy (field v k) = true -> nullish v = false /\ truthy v = true.
Proof. destruct v; simpl; try discriminate. auto. Qed.

Lemma authorization_cases req :
  authorization req = VUndefined \/ exists h, authorization req = VStr h.
Proof.
  unfold authorization, read.
  destruct (headers req) as [hs|]; [destruct (hs !! _); eauto|]; auto.
Qed.

Lemma field_string (v : value) (k s : string) :
  field v k = VStr s -> nullish v = false /\ truthy v = true.
Proof. destruct v; simpl; try discriminate. auto. Qed.

End GateMore.

(** X15: the chain of the admin routes, [ensureLoggedIn] then
    [ensureAdmin], reaches the handler exactly when the identity slot is
    truthy and its [isAdmin] is truthy; every other request, the anonymous
    one included, is answered with Unauthorized and with no other
    error. *)
Theorem admin_route (req : request) (res : response) :
  run_chain [ensureLoggedIn; ensureAdmin] req res
  = if truthy (user res) && truthy (field (user res) "isAdmin")
    then Next else NextErr UnauthorizedError.
Proof.
  cbn [run_chain]. rewrite ensureLoggedIn_cases, ensureAdmin_cases.
  destruct (truthy (user res)) eqn:Hu; [|reflexivity].
  destruct (nullish (user res)) eqn:Hn.
  - apply nullish_falsy in Hn. congruence.
  - destruct (truthy (field _ _)); reflexivity.
Qed.

(** X16: the gates are ordered by strength. A request that passes
    [ensureAdmin] passes [ensureLoggedIn] and [ensureAdminOrUser]; and on
    a path with a username, a request that passes [ensureAdminOrUser]
    passes [ensureLoggedIn]. *)
Theorem gate_hierarchy (req : request) (res : response) :
  (ensureAdmin req res = Next ->
   ensureLoggedIn req res = Next /\ ensureAdminOrUser req res = Next)
  /\ (forall owner,
        params req !! "username" = Some owner ->
        ensureAdminOrUser req res = Next ->
        ensureLoggedIn req res = Next).
Proof.
  rewrite ensureAdmin_cases, ensureAdminOrUser_cases, ensureLoggedIn_cases.
  split.
  - destruct (nullish (user res)); [discriminate|].
    destruct (truthy (field (user res) "isAdmin")) eqn:Ha; [|discriminate].
    intros _. apply field_truthy in Ha as [_ ->]. auto.
  - intros owner Howner. unfold read. rewrite Howner.
    destruct (nullish (user res)); [discriminate|].
    destruct (truthy (field (user res) "isAdmin")) eqn:Ha.
    + apply field_truthy in Ha as [_ ->]. reflexivity.
    + cbn [orb]. destruct (strict_eq _ _) eqn:E; [|discriminate].
      apply strict_eq_str in E. apply field_string in E as [_ ->]. reflexivity.
Qed.

Lemma gate_hierarchy_witness :
  ensureAdminOrUser {| headers := None; params := ∅ |}
    {| locals := {[ "user" := VObj [("username", VStr "u1");
                                    ("isAdmin", VBool true)] ]} |}
  = Next.
Proof.
  apply (proj1 (gate_hierarchy _ _)). reflexivity.
Defined.

(** X17: on a path without a username parameter [ensureAdminOrUser]
    compares [undefined] with the identity's username, so it lets every
    identity without a username through, admin or not. *)
Theorem ensureAdminOrUser_no_param (req : request) (res : response) :
  params req !! "username" = None ->
  nullish (user res) = false ->
  field (user res) "username" = VUndefined ->
  ensureAdminOrUser req res = Next.
Proof.
  intros Hp Hn Hu. rewrite ensureAdminOrUser_cases, Hn, Hu.
  unfold read. rewrite Hp. cbn [strict_eq]. rewrite orb_true_r. reflexivity.
Qed.

Lemma ensureAdminOrUser_no_param_witness :
  ensureAdminOrUser {| headers := None; params := ∅ |}
    {| locals := {[ "user" := VObj [("isAdmin", VBool false)] ]} |}
  = Next.
Proof.
  apply ensureAdminOrUser_no_param; reflexivity.
Defined.

(** X18: [authenticateJWT] writes nothing but the identity slot. Every
    other entry of [res.locals] is left as it was, and the response it
    leaves is the one it received or that one with the slot set to a
    payload the verifier returned. *)
Theorem authenticateJWT_frame
    (jwt_verify : string -> string -> result value) (SECRET_KEY : string)
    (req : request) (res : response) :
  (forall k, k <> "user" ->
     locals (fst (authenticateJWT jwt_verify SECRET_KEY req res)) !! k
     = locals res !! k)
  /\ (fst (authenticateJWT jwt_verify SECRET_KEY req res) = res
      \/ exists token payload,
           jwt_verify token SECRET_KEY = Ok payload
           /\ fst (authenticateJWT jwt_verify SECRET_KEY req res)
              = set_user res payload).
Proof.
  unfold authenticateJWT.
  destruct (truthy (authorization req)); [|split; auto].
  destruct (jwt_verify _ SECRET_KEY) as [payload|e] eqn:E; cbn [bind fst].
  - split.
    + intros k Hk. unfold set_user. cbn [locals].
      apply lookup_insert_ne. congruence.
    + right. eauto.
  - split; auto.
Qed.

Lemma authenticateJWT_frame_witness :
  locals (fst (authenticateJWT (verify_only "h.p.s" "secret" test_payload)
                 "secret" (with_authorization "Bearer h.p.s")
                 {| locals := {[ "requestId" := VNum 7 ]} |}))
  !! "requestId"
  = Some (VNum 7).
Proof.
  rewrite (proj1 (authenticateJWT_frame
                    (verify_only "h.p.s" "secret" test_payload) "secret"
                    (with_authorization "Bearer h.p.s")
                    {| locals := {[ "requestId" := VNum 7 ]} |}))
    by discriminate.
  reflexivity.
Defined.

(** X19: behind [authenticateJWT] and with nothing in the identity slot
    beforehand, [ensureLoggedIn] lets a request through exactly when it
    carries a non-empty Authorization header whose token verifies to a
    truthy payload; every other request, without a header or with a token
    that does not verify, is answered with Unauthorized. *)
Theorem login_pipeline
    (jwt_verify : string -> string -> result value) (SECRET_KEY : string)
    (req : request) (res : response) :
  truthy (user res) = false ->
  (ensureLoggedIn req (fst (authenticateJWT jwt_verify SECRET_KEY req res)) = Next
   <-> exists h payload,
         authorization req = VStr h /\ h <> EmptyString
         /\ jwt_verify (trim (strip_bearer h)) SECRET_KEY = Ok payload
         /\ truthy payload = true)
  /\ (ensureLoggedIn req (fst (authenticateJWT jwt_verify SECRET_KEY req res))
      <> Next ->
      ensureLoggedIn req (fst (authenticateJWT jwt_verify SECRET_KEY req res))
      = NextErr UnauthorizedError).
Proof.
  intros Hu. rewrite ensureLoggedIn_cases. split.
  - unfold authenticateJWT.
    destruct (authorization_cases req) as [Ha|[h Ha]]; rewrite Ha.
    + cbn [truthy fst]. rewrite Hu. split; [discriminate|].
      intros (h & p & [=] & _).
    + destruct (truthy (VStr h)) eqn:Th; cbn [toString].
      * destruct (jwt_verify _ SECRET_KEY) as [payload|e] eqn:E; cbn [bind fst].
        -- rewrite user_set_user. split.
           ++ destruct (truthy payload) eqn:Tp; [|discriminate].
              intros _. exists h, payload. repeat split; auto.
              intros ->. discriminate.
           ++ intros (h' & p & [= <-] & _ & Hv & Tp).
              rewrite E in Hv. injection Hv as <-. rewrite Tp. reflexivity.
        -- rewrite Hu. split; [discriminate|].
           intros (h' & p & [= <-] & _ & Hv & _). congruence.
      * cbn [fst]. rewrite Hu. split; [discriminate|].
        intros (h' & p & [= <-] & Hne & _). exfalso. apply Hne.
        cbn in Th. apply negb_false_iff, String.eqb_eq in Th. exact Th.
  - destruct (truthy (user (fst (authenticateJWT jwt_verify SECRET_KEY req res))));
      [congruence|reflexivity].
Qed.

Lemma login_pipeline_witness :
  ensureLoggedIn (with_authorization "Bearer h.p.s")
    (fst (authenticateJWT (verify_only "h.p.s" "secret" test_payload) "secret"
            (with_authorization "Bearer h.p.s") {| locals := ∅ |}))
  = Next
  /\ ensureLoggedIn {| headers := None; params := ∅ |}
       (fst (authenticateJWT (verify_only "h.p.s" "secret" test_payload)
               "secret" {| headers := None; params := ∅ |} {| locals := ∅ |}))
     = NextErr UnauthorizedError.
Proof.
  split.
  - destruct (login_pipeline (verify_only "h.p.s" "secret" test_payload)
                "secret" (with_authorization "Bearer h.p.s")
                {| locals := ∅ |}) as [Hin _]; [reflexivity|].
    apply Hin. exists "Bearer h.p.s", test_payload.
    repeat split. discriminate.
  - destruct (login_pipeline (verify_only "h.p.s" "secret" test_payload)
                "secret" {| headers := None; params := ∅ |}
                {| locals := ∅ |}) as [_ Hout]; [reflexivity|].
    apply Hout. discriminate.
Defined.

Section HeaderForms.

Local Arguments String.append !_ _ / : simpl nomatch.

Lemma trimStart_blank_app (ws s : string) :
  blank ws = true -> trimStart (ws ++ s) = trimStart s.
Proof.
  induction ws as [|c ws IH]; simpl; [reflexivity|].
  intros [-> Hws]%andb_prop. apply IH, Hws.
Qed.

Lemma trimEnd_blank (ws : string) : blank ws = true -> trimEnd ws = EmptyString.
Proof.
  induction ws as [|c ws IH]; simpl; [reflexivity|].
  intros [-> Hws]%andb_prop. rewrite (IH Hws). reflexivity.
Qed.

Lemma trimEnd_app_blank (s ws : string) :
  blank ws = true -> trimEnd (s ++ ws) = trimEnd s.
Proof.
  intros Hws. induction s as [|c s IH]; simpl.
  - apply trimEnd_blank, Hws.
  - rewrite IH. reflexivity.
Qed.

Lemma trim_padded (ws token ws' : string) :
  token <> EmptyString -> spaceless token = true ->
  blank ws = true -> blank ws' = true ->
  trim (ws ++ token ++ ws') = token.
Proof.
  intros Hne Hsp Hws Hws'. unfold trim.
  rewrite (trimStart_blank_app ws _ Hws).
  assert (Hstart : trimStart (token ++ ws') = token ++ ws').
  { destruct token as [|c t]; [congruence|]. simpl in *.
    apply andb_prop in Hsp as [Hc _].
    destruct (is_space c); [discriminate|reflexivity]. }
  rewrite Hstart, (trimEnd_app_blank token ws' Hws').
  apply trimEnd_spaceless, Hsp.
Qed.

(** Two words without white space are equal when each is followed, in
    the same string, by nothing or by white space. *)
Lemma word_boundary (a b w w' : string) :
  spaceless a = true -> spaceless b = true ->
  (forall c r, w = String c r -> is_space c = true) ->
  (forall c r, w' = String c r -> is_space c = true) ->
  a ++ w = b ++ w' -> a = b.
Proof.
  revert b. induction a as [|c a IH]; intros [|d b]; simpl; intros Ha Hb Hw Hw' E.
  - reflexivity.
  - apply andb_prop in Hb as [Hd _]. rewrite (Hw _ _ E) in Hd. discriminate.
  - apply andb_prop in Ha as [Hc _]. symmetry in E.
    rewrite (Hw' _ _ E) in Hc. discriminate.
  - injection E as -> E.
    apply andb_prop in Ha as [_ Ha]. apply andb_prop in Hb as [_ Hb].
    f_equal. eapply IH; eassumption.
Qed.

Lemma blank_head (ws : string) (c : ascii) (r : string) :
  blank ws = true -> ws = String c r -> is_space c = true.
Proof. intros H ->. simpl in H. apply andb_prop in H as [H _]. exact H. Qed.

Lemma no_scheme (word ws token ws' : string) :
  spaceless word = true -> word <> EmptyString ->
  token <> EmptyString -> spaceless token = true -> token <> word ->
  blank ws = true -> blank ws' = true ->
  after_prefix (word ++ " ") (ws ++ token ++ ws') = None.
Proof.
  intros Hword Hwne Hne Hsp Hdiff Hws Hws'.
  destruct (after_prefix _ _) as [r|] eqn:E; [|reflexivity].
  apply after_prefix_Some in E. exfalso.
  destruct ws as [|c ws].
  - apply Hdiff. simpl in E.
    assert (E' : token ++ ws' = word ++ (" " ++ r)).
    { rewrite E. apply append_assoc. }
    eapply (word_boundary token word ws' (" " ++ r)); eauto.
    + intros c r'. apply blank_head, Hws'.
    + intros c r' [= <- _]. reflexivity.
  - destruct word as [|x word]; [congruence|]. simpl in E, Hws, Hword.
    injection E as -> _.
    apply andb_prop in Hws as [Hc _]. apply andb_prop in Hword as [Hx _].
    rewrite Hc in Hx. discriminate.
Qed.

Lemma strip_bearer_padded (ws token ws' : string) :
  token <> EmptyString -> spaceless token = true ->
  token <> "Bearer" -> token <> "bearer" ->
  blank ws = true -> blank ws' = true ->
  strip_bearer (ws ++ token ++ ws') = ws ++ token ++ ws'.
Proof.
  intros Hne Hsp H1 H2 Hws Hws'. unfold strip_bearer.
  change "Bearer " with ("Bearer" ++ " "). change "bearer " with ("bearer" ++ " ").
  rewrite !no_scheme by (assumption || reflexivity || discriminate).
  reflexivity.
Qed.

End HeaderForms.

(** X20: the scheme word is optional and white space around the token is
    ignored. For a token without white space, a header that is the token
    alone, or the token after [Bearer ] or [bearer ], each with any white
    space before and after the token, is verified as that token: the slot
    receives its payload when it verifies and is left alone when not. *)
Theorem authenticateJWT_header_forms
    (jwt_verify : string -> string -> result value) (SECRET_KEY : string)
    (req : request) (res : response) (token ws ws' : string) :
  token <> EmptyString -> spaceless token = true ->
  token <> "Bearer" -> token <> "bearer" ->
  blank ws = true -> blank ws' = true ->
  authorization req = VStr (ws ++ token ++ ws')
  \/ authorization req = VStr ("Bearer " ++ ws ++ token ++ ws')
  \/ authorization req = VStr ("bearer " ++ ws ++ token ++ ws') ->
  authenticateJWT jwt_verify SECRET_KEY req res
  = match jwt_verify token SECRET_KEY with
    | Ok payload => (set_user res payload, Next)
    | Throw _ => (res, Next)
    end.
Proof.
  intros Hne Hsp H1 H2 Hws Hws' Hh.
  assert (Hcore : ws ++ token ++ ws' <> EmptyString).
  { destruct ws; [destruct token; [congruence|discriminate]|discriminate]. }
  destruct Hh as [Hh|[Hh|Hh]];
    rewrite (authenticateJWT_header jwt_verify SECRET_KEY req res _ Hh)
      by (exact Hcore || discriminate).
  - rewrite strip_bearer_padded, trim_padded by assumption. reflexivity.
  - change (strip_bearer ("Bearer " ++ ws ++ token ++ ws'))
      with (ws ++ token ++ ws').
    rewrite trim_padded by assumption. reflexivity.
  - change (strip_bearer ("bearer " ++ ws ++ token ++ ws'))
      with (ws ++ token ++ ws').
    rewrite trim_padded by assumption. reflexivity.
Qed.

Lemma authenticateJWT_header_forms_witness :
  authenticateJWT (verify_only "h.p.s" "secret" test_payload) "secret"
    (with_authorization "h.p.s") {| locals := ∅ |}
  = (set_user {| locals := ∅ |} test_payload, Next)
  /\ authenticateJWT (verify_only "h.p.s" "secret" test_payload) "secret"
       (with_authorization "Bearer   h.p.s ") {| locals := ∅ |}
     = (set_user {| locals := ∅ |} test_payload, Next).
Proof.
  split.
  - apply (authenticateJWT_header_forms
             (verify_only "h.p.s" "secret" test_payload) "secret"
             (with_authorization "h.p.s") {| locals := ∅ |}
             "h.p.s" EmptyString EmptyString);
      try discriminate; try reflexivity.
    left. reflexivity.
  - apply (authenticateJWT_header_forms
             (verify_only "h.p.s" "secret" test_payload) "secret"
             (with_authorization "Bearer   h.p.s ") {| locals := ∅ |}
             "h.p.s" "  " " ");
      try discriminate; try reflexivity.
    right. left. reflexivity.
Defined.
